(** * databay: the MongoDB outlet and the schedule planner

    A shallow embedding of [databay/outlets/mongo_outlet.py] (module
    [MongoOutlet]) and of the schedule planner exercised by
    [test/unit/test_schedule_planner.py] (module [SchedulePlanner]),
    with the properties of both that the specification states. *)

From Stdlib Require Import ZArith.
From stdpp Require Import gmap strings list fin_maps.

Open Scope string_scope.
Open Scope list_scope.
#[local] Set Warnings "-register-all".

(* ===================================================================== *)
(** * The MongoDB outlet *)
(* ===================================================================== *)

Module MongoOutlet.

(** ** Python values and records *)

(** A record payload is an arbitrary Python object; the outlet only asks
    whether it is a list ([isinstance(record.payload, list)]). *)
Inductive pyval : Type :=
  | PyNone
  | PyInt (z : Z)
  | PyStr (s : string)
  | PyDict (fields : list (string * pyval))
  | PyList (items : list pyval).

Definition is_list (v : pyval) : bool :=
  match v with PyList _ => true | _ => false end.

(** [databay.Record]: a payload and a metadata dictionary. The only key the
    outlet reads is ['mongodb_collection'], documented as the name of the
    collection to write to. *)
Record record : Type := {
  payload : pyval;
  metadata : gmap string string
}.

(** ** Insertion-ordered dictionaries

    [_group_by_collection] builds a [dict] and [push] iterates over its
    [items()]: a Python dict keeps keys in the order of their first
    insertion, and assigning to an existing key keeps its position. *)

Definition odict (V : Type) : Type := list (string * V).

Fixpoint od_get {V} (k : string) (d : odict V) : option V :=
  match d with
  | [] => None
  | (k', v) :: d' => if decide (k = k') then Some v else od_get k d'
  end.

Definition od_mem {V} (k : string) (d : odict V) : bool :=
  match od_get k d with Some _ => true | None => false end.

Fixpoint od_set {V} (k : string) (v : V) (d : odict V) : odict V :=
  match d with
  | [] => [(k, v)]
  | (k', v') :: d' =>
      if decide (k = k') then (k', v) :: d' else (k', v') :: od_set k v d'
  end.

Definition od_keys {V} (d : odict V) : list string := d.*1.

(** ** The outlet object *)

Record MongoClient : Type := {
  client_host : option string;
  client_port : option pyval
}.

(** A [pymongo.database.Database] handle: [client[database_name]]. *)
Record Database : Type := { db_name : string }.

(** A [pymongo] collection handle: [db[name]]. *)
Record Collection : Type := { coll_db : string; coll_name : string }.

Record MongoOutlet : Type := {
  active : bool;                 (* the [active] property of [Outlet] *)
  host : option string;
  port : option pyval;           (* annotated [str], documented as an int *)
  database_name : string;
  collection : string;
  _client : option MongoClient;
  _db : option Database;         (* [_db == None] means disconnected *)
  _collections : list string
}.

(** [MongoOutlet.__init__]; [active] is whatever [Outlet.__init__], which
    is not among the sources, leaves it at. *)
Definition init (active : bool) (database_name collection : string)
    (host : option string) (port : option pyval) : MongoOutlet :=
  {| active := active; host := host; port := port;
     database_name := database_name; collection := collection;
     _client := None; _db := None; _collections := [] |}.

(** ** [_group_by_collection] *)

(** One iteration of the [for record in records] loop. *)
Definition group_record (self : MongoOutlet)
    (collections : odict (list pyval)) (r : record) : odict (list pyval) :=
  let collection_name :=
    match metadata r !! "mongodb_collection" with
    | Some name => name
    | None => collection self
    end in
  let collections :=
    if od_mem collection_name collections then collections
    else od_set collection_name [] collections in
  let current := default [] (od_get collection_name collections) in
  match payload r with
  | PyList items => od_set collection_name (current ++ items) collections
  | p => od_set collection_name (current ++ [p]) collections
  end.

Definition _group_by_collection (self : MongoOutlet)
    (records : list record) : odict (list pyval) :=
  fold_left (group_record self) records [].

(** ** Exceptions, the server and the state monad *)

(** What a call can raise: the outlet's own [MongoCollectionNotFound], the
    [AttributeError] of calling a method on [None] and the [TypeError] of
    subscripting it (a disconnected [_db]), and whatever [pymongo] raises,
    kept opaque but for a name. *)
Inductive exn : Type :=
  | MongoCollectionNotFound (name : string)
  | AttributeError
  | TypeError
  | DriverError (what : string).

Inductive result (A : Type) : Type :=
  | Return (a : A)
  | Raise (e : exn).
Arguments Return {A} a.
Arguments Raise {A} e.

(** The calls the outlet makes to [pymongo]: the two of [connect], which
    build a client and take a database from it, and the round trips to
    the server. *)
Inductive call : Type :=
  | NewClient (host : option string) (port : option pyval)
  | GetDatabase (name : string)
  | ListCollectionNames (db : string)
  | CreateCollection (db name : string)
  | InsertMany (db name : string) (documents : list pyval).

(** The world the outlet runs in: the outlet object itself, the server's
    databases (database name, then collection name, to the documents of
    the collection, oldest first), and the driver calls issued so far. *)
Record state : Type := {
  self : MongoOutlet;
  mongo : gmap string (gmap string (list pyval));
  calls : list call
}.

Definition M (A : Type) : Type := state -> result A * state.

Definition ret {A} (a : A) : M A := fun st => (Return a, st).

Definition raise {A} (e : exn) : M A := fun st => (Raise e, st).

Definition bind {A B} (m : M A) (k : A -> M B) : M B :=
  fun st =>
    match m st with
    | (Return a, st') => k a st'
    | (Raise e, st') => (Raise e, st')
    end.

Notation "'do' x <- m ; k" := (bind m (fun x => k))
  (at level 10, x name, m at level 100, k at level 200,
   format "'[v' 'do'  x  <-  m ; '/' k ']'").
Notation "m ;; k" := (bind m (fun _ => k))
  (at level 100, k at level 200, right associativity).

(** [try: m except MongoCollectionNotFound: handler]: any other exception
    passes through, and what [m] did before raising stays done. *)
Definition try_except_not_found {A} (m : M A) (handler : M A) : M A :=
  fun st =>
    match m st with
    | (Raise (MongoCollectionNotFound _), st') => handler st'
    | other => other
    end.

Definition get_self : M MongoOutlet := fun st => (Return (self st), st).

Definition set_self (f : MongoOutlet -> MongoOutlet) : M unit :=
  fun st =>
    (Return tt, {| self := f (self st); mongo := mongo st; calls := calls st |}).

(** [for x in xs: body(x)]. *)
Fixpoint for_each {A} (xs : list A) (body : A -> M unit) : M unit :=
  match xs with
  | [] => ret tt
  | x :: xs' => body x ;; for_each xs' body
  end.

Definition set_client (c : option MongoClient) (o : MongoOutlet) : MongoOutlet :=
  {| active := active o; host := host o; port := port o;
     database_name := database_name o; collection := collection o;
     _client := c; _db := _db o; _collections := _collections o |}.

Definition set_db (d : option Database) (o : MongoOutlet) : MongoOutlet :=
  {| active := active o; host := host o; port := port o;
     database_name := database_name o; collection := collection o;
     _client := _client o; _db := d; _collections := _collections o |}.

Definition set_collections (l : list string) (o : MongoOutlet) : MongoOutlet :=
  {| active := active o; host := host o; port := port o;
     database_name := database_name o; collection := collection o;
     _client := _client o; _db := _db o; _collections := l |}.

(** The collections of database [db], and the documents of one of them
    (none when the collection does not exist). *)
Definition collections_of (m : gmap string (gmap string (list pyval)))
    (db : string) : gmap string (list pyval) :=
  default ∅ (m !! db).

Definition documents (m : gmap string (gmap string (list pyval)))
    (db name : string) : list pyval :=
  default [] (collections_of m db !! name).

(** ** The driver and the outlet's methods *)

Section Driver.

(** [fault h c] is the exception, if any, that the driver raises on call
    [c] issued after the calls [h]: a lost connection, a server error, an
    argument [pymongo] rejects. A call that does not fault has its effect
    on the server. *)
Variable fault : list call -> call -> option string.

(** [kept h c] is how much of a write that faults the server has carried
    out all the same. For [insert_many] it is the number of documents
    stored: the call is ordered (the default), so the documents before
    the one that fails stay. For [create_collection] it is not zero when
    the collection has been created. *)
Variable kept : list call -> call -> nat.

Definition driver {A} (c : call)
    (answer : gmap string (gmap string (list pyval)) ->
              A * gmap string (gmap string (list pyval))) : M A :=
  fun st =>
    match fault (calls st) c with
    | Some e =>
        (Raise (DriverError e),
         {| self := self st; mongo := mongo st; calls := calls st ++ [c] |})
    | None =>
        let '(a, m) := answer (mongo st) in
        (Return a, {| self := self st; mongo := m; calls := calls st ++ [c] |})
    end.

(** [db.list_collection_names()] *)
Definition list_collection_names (db : Database) : M (list string) :=
  driver (ListCollectionNames (db_name db))
    (fun m => ((map_to_list (collections_of m (db_name db))).*1, m)).

(** The server once collection [name] of [db] exists, empty if it is
    new. *)
Definition created (db name : string)
    (m : gmap string (gmap string (list pyval)))
    : gmap string (gmap string (list pyval)) :=
  <[db := <[name := documents m db name]> (collections_of m db)]> m.

(** [db.create_collection(name)]: the collection exists afterwards. *)
Definition create_collection (db : Database) (name : string) : M unit :=
  fun st =>
    let call := CreateCollection (db_name db) name in
    match fault (calls st) call with
    | Some e =>
        (Raise (DriverError e),
         {| self := self st;
            mongo := if decide (kept (calls st) call = 0) then mongo st
                     else created (db_name db) name (mongo st);
            calls := calls st ++ [call] |})
    | None =>
        (Return tt,
         {| self := self st;
            mongo := created (db_name db) name (mongo st);
            calls := calls st ++ [call] |})
    end.

(** The server once [docs] are appended to collection [name] of [db];
    the collection exists afterwards. *)
Definition written (db name : string) (docs : list pyval)
    (m : gmap string (gmap string (list pyval)))
    : gmap string (gmap string (list pyval)) :=
  <[db := <[name := documents m db name ++ docs]> (collections_of m db)]> m.

(** The server once it has stored [docs] of an insert that fails: the
    collection is created by its first document. *)
Definition appended (db name : string) (docs : list pyval)
    (m : gmap string (gmap string (list pyval)))
    : gmap string (gmap string (list pyval)) :=
  match docs with
  | [] => m
  | _ => written db name docs m
  end.

(** [collection.insert_many(documents)]: the documents are appended. When
    the call raises, the documents the server had stored before the
    failure stay. *)
Definition insert_many (c : Collection) (docs : list pyval) : M unit :=
  fun st =>
    let call := InsertMany (coll_db c) (coll_name c) docs in
    match fault (calls st) call with
    | Some e =>
        (Raise (DriverError e),
         {| self := self st;
            mongo := appended (coll_db c) (coll_name c)
                       (take (kept (calls st) call) docs) (mongo st);
            calls := calls st ++ [call] |})
    | None =>
        (Return tt,
         {| self := self st;
            mongo := written (coll_db c) (coll_name c) docs (mongo st);
            calls := calls st ++ [call] |})
    end.

(** [MongoClient(host=..., port=...)] *)
Definition new_client (host : option string) (port : option pyval)
    : M MongoClient :=
  driver (NewClient host port)
    (fun m => ({| client_host := host; client_port := port |}, m)).

(** [client[name]] *)
Definition get_database (name : string) : M Database :=
  driver (GetDatabase name) (fun m => ({| db_name := name |}, m)).

(** [MongoOutlet.disconnect] *)
Definition disconnect : M unit :=
  do o <- get_self;
  match _client o with
  | Some _ => set_self (set_client None)     (* after [_client.close()] *)
  | None => ret tt
  end ;;
  do o <- get_self;
  match _db o with
  | Some _ => set_self (set_db None)
  | None => ret tt
  end.

(** [MongoOutlet.connect(database_name=None)]: each of the two
    assignments at its end takes place only if its right-hand side does
    not raise. *)
Definition connect (name : option string) : M bool :=
  do o <- get_self;
  let name := default (database_name o) name in
  let establish : M bool :=
    do c <- new_client (host o) (port o);
    set_self (set_client (Some c)) ;;
    do d <- get_database name;
    set_self (set_db (Some d)) ;;
    ret false in
  match _client o, _db o with
  | Some _, Some d =>
      if decide (db_name d = name) then ret true
      else disconnect ;; establish
  | _, _ => establish
  end.

(** The decorators [ensure_connection] and [ensure_connection_async]; the
    coroutine of the second is awaited at once by its caller, so both
    read the same here. *)
Definition ensure_connection {A} (fn : M A) : M A :=
  do o <- get_self;
  match _db o with
  | None => connect None ;; fn
  | Some _ => fn
  end.

Definition ensure_connection_async {A} (fn : M A) : M A :=
  do o <- get_self;
  match _db o with
  | None => connect None ;; fn
  | Some _ => fn
  end.

(** [MongoOutlet._get_collection(collection)] *)
Definition _get_collection (name : string) : M Collection :=
  do o <- get_self;
  (if bool_decide (name ∈ _collections o) then ret tt
   else
     match _db o with
     | None => raise AttributeError
     | Some d =>
         do names <- list_collection_names d;
         set_self (set_collections names) ;;
         if bool_decide (name ∈ names) then ret tt
         else raise (MongoCollectionNotFound name)
     end) ;;
  do o <- get_self;
  match _db o with
  | None => raise TypeError
  | Some d => ret {| coll_db := db_name d; coll_name := name |}
  end.

(** [MongoOutlet._add_collection(collection)], decorated with
    [ensure_connection]. *)
Definition _add_collection (name : string) : M unit :=
  ensure_connection
    (do o <- get_self;
     match _db o with
     | None => raise AttributeError
     | Some d => create_collection d name
     end).

(** The body of the [for collection_name, collection_records in ...] loop
    of [push]. *)
Definition push_collection (item : string * list pyval) : M unit :=
  let '(collection_name, collection_records) := item in
  do c <- try_except_not_found
            (_get_collection collection_name)
            (_add_collection collection_name ;; _get_collection collection_name);
  insert_many c collection_records.

(** The undecorated [push]; [update] is only written to the log. *)
Definition push_body (records : list record) (update : string) : M unit :=
  do o <- get_self;
  if negb (active o) then ret tt
  else
    let records_by_collections := _group_by_collection o records in
    for_each records_by_collections push_collection.

(** [MongoOutlet.push(records, update)] *)
Definition push (records : list record) (update : string) : M unit :=
  ensure_connection_async (push_body records update).

(** [on_start] and [on_shutdown] *)
Definition on_start : M unit := connect None ;; ret tt.

Definition on_shutdown : M unit := disconnect.

End Driver.

(** A server that has carried out nothing of a write that raises. *)
Definition keep_none : list call -> call -> nat := fun _ _ => 0.

(** What [pymongo] insists on before it talks to the server: an integer
    port, a database name that is not empty and holds none of the
    characters NUL, space, double quote, dollar, dot, slash and
    backslash, and for [insert_many] a list of documents that is not
    empty and holds dictionaries only. *)
Definition is_document (v : pyval) : bool :=
  match v with PyDict _ => true | _ => false end.

(** The characters a database name may not hold. *)
Definition forbidden_in_name (c : Ascii.ascii) : bool :=
  existsb (Ascii.eqb c) (map Ascii.ascii_of_nat [0; 32; 34; 36; 46; 47; 92]).

(** The names [client[name]] accepts. *)
Definition valid_database_name (name : string) : bool :=
  match name with
  | EmptyString => false
  | _ => forallb (fun c => negb (forbidden_in_name c))
                 (String.list_ascii_of_string name)
  end.

(** The driver in front of a server that never fails: it raises exactly
    when an argument does not pass these checks. *)
Definition pymongo_checks : list call -> call -> option string :=
  fun _ c =>
    match c with
    | NewClient _ None | NewClient _ (Some (PyInt _)) => None
    | NewClient _ (Some _) => Some "TypeError"
    | GetDatabase name =>
        if valid_database_name name then None else Some "InvalidName"
    | InsertMany _ _ [] => Some "TypeError"
    | InsertMany _ _ docs =>
        if forallb is_document docs then None else Some "TypeError"
    | _ => None
    end.

(** The [_id] of a document that carries an integer one. *)
Definition document_id (v : pyval) : option Z :=
  match v with
  | PyDict fields =>
      match od_get "_id" fields with
      | Some (PyInt z) => Some z
      | _ => None
      end
  | _ => None
  end.

(** How many documents of a list come before the first whose [_id] is
    that of an earlier one, or among [seen]. *)
Fixpoint fresh_ids (seen : list Z) (docs : list pyval) : nat :=
  match docs with
  | [] => 0
  | d :: docs' =>
      match document_id d with
      | Some z =>
          if bool_decide (z ∈ seen) then 0 else S (fresh_ids (z :: seen) docs')
      | None => S (fresh_ids seen docs')
      end
  end.

(** The same driver when the server, as it does, refuses a document whose
    [_id] has been used: an insert with two documents of the same [_id]
    raises, and the documents before the second of them are stored. *)
Definition duplicate_key : list call -> call -> option string :=
  fun h c =>
    match pymongo_checks h c, c with
    | None, InsertMany _ _ docs =>
        if (fresh_ids [] docs <? length docs)%nat then Some "BulkWriteError"
        else None
    | answer, _ => answer
    end.

Definition keep_fresh : list call -> call -> nat :=
  fun h c =>
    match pymongo_checks h c, c with
    | None, InsertMany _ _ docs => fresh_ids [] docs
    | _, _ => 0
    end.

(** ** What the specification says of grouping, in its own words *)

(** The collection a record is meant for: the one named by its
    ['mongodb_collection'] metadata key when that key is present, and
    otherwise the default collection configured on the outlet. *)
Definition destination (default_collection : string) (r : record) : string :=
  match metadata r !! "mongodb_collection" with
  | Some name => name
  | None => default_collection
  end.

(** What a payload adds to its group: its elements when it is a list,
    itself otherwise. *)
Definition contribution (p : pyval) : list pyval :=
  match p with
  | PyList items => items
  | _ => [p]
  end.

(** The in-order concatenation of the contributions of the records meant
    for [name]. *)
Definition grouped (default_collection name : string)
    (records : list record) : list pyval :=
  concat (map (fun r => contribution (payload r))
              (filter (fun r => destination default_collection r = name)
                      records)).

(** The database [push] writes to: the one the outlet is connected to,
    or, when it is disconnected, the one it then connects to. *)
Definition target_database (o : MongoOutlet) : string :=
  match _db o with
  | Some d => db_name d
  | None => database_name o
  end.

(** The four calls of a lookup that fails, the creation, the second
    lookup and the insert. *)
Definition retry_calls (db name : string) (docs : list pyval) : list call :=
  [ ListCollectionNames db; CreateCollection db name;
    ListCollectionNames db; InsertMany db name docs ].

(** ** Driver errors that reach the caller *)

Section Propagates.

Variable fault : list call -> call -> option string.

(** A run from [st] with outcome [out] only adds calls to the log, and
    the first call that faulted among them is the last one made and its
    exception is the outcome. *)
Definition run_propagates {A} (st : state) (out : result A * state) : Prop :=
  exists new,
    calls (snd out) = calls st ++ new /\
    forall pre c post e,
      new = pre ++ c :: post ->
      fault (calls st ++ pre) c = Some e ->
      fst out = Raise (DriverError e) /\ post = [].

(** A computation all of whose runs are such. *)
Definition propagates {A} (m : M A) : Prop :=
  forall st, run_propagates st (m st).

(** A run from [st] with outcome [out] that raises an exception of the
    driver has it from the last call it made. *)
Definition run_accounted {A} (st : state) (out : result A * state) : Prop :=
  exists new,
    calls (snd out) = calls st ++ new /\
    forall e,
      fst out = Raise (DriverError e) ->
      exists pre c, new = pre ++ [c] /\ fault (calls st ++ pre) c = Some e.

Definition accounted {A} (m : M A) : Prop :=
  forall st, run_accounted st (m st).

End Propagates.

(** ** The outlet after [connect] and after [disconnect] *)

(** The outlet with a fresh client and the database [name]: what
    [connect] leaves when it opens a connection. *)
Definition connected_to (name : string) (o : MongoOutlet) : MongoOutlet :=
  {| active := active o; host := host o; port := port o;
     database_name := database_name o; collection := collection o;
     _client := Some {| client_host := host o; client_port := port o |};
     _db := Some {| db_name := name |};
     _collections := _collections o |}.

(** The outlet with neither client nor database. *)
Definition disconnected (o : MongoOutlet) : MongoOutlet :=
  {| active := active o; host := host o; port := port o;
     database_name := database_name o; collection := collection o;
     _client := None; _db := None;
     _collections := _collections o |}.

(** The outlet as [connect] leaves it before it opens a connection:
    disconnected, if it held a client and a database. *)
Definition released (o : MongoOutlet) : MongoOutlet :=
  match _client o, _db o with
  | Some _, Some _ => disconnected o
  | _, _ => o
  end.

(** The state with another outlet object, same server and same log. *)
Definition with_self (o : MongoOutlet) (st : state) : state :=
  {| self := o; mongo := mongo st; calls := calls st |}.

(** Whether the outlet holds a client and the database [name]: the test
    at the top of [connect]. *)
Definition connected_with (name : string) (o : MongoOutlet) : bool :=
  match _client o, _db o with
  | Some _, Some d => bool_decide (db_name d = name)
  | _, _ => false
  end.

(** What the outlet is configured with, as opposed to what it holds while
    connected. *)
Definition same_config (o o' : MongoOutlet) : Prop :=
  active o' = active o /\ host o' = host o /\ port o' = port o /\
  database_name o' = database_name o /\ collection o' = collection o.

(** The state once call [c] is in the log. *)
Definition logged (c : call) (st : state) : state :=
  {| self := self st; mongo := mongo st; calls := calls st ++ [c] |}.

(** ** Reading groups and logs *)

(** The groups of an insertion-ordered dictionary, in key order. *)
Definition od_values {V} (d : odict V) : list V := d.*2.

(** The round trips to the server of a log, in order: every call but
    those of [connect]. *)
Fixpoint round_trips (l : list call) : list call :=
  match l with
  | [] => []
  | NewClient _ _ :: l' => round_trips l'
  | GetDatabase _ :: l' => round_trips l'
  | c :: l' => c :: round_trips l'
  end.

(** The [insert_many] calls of a log, in order. *)
Fixpoint inserts (l : list call) : list call :=
  match l with
  | [] => []
  | InsertMany db name docs :: l' => InsertMany db name docs :: inserts l'
  | _ :: l' => inserts l'
  end.

(** What the server has stored of the groups [rest] that the loop of
    [push] had still to write when it stopped: the first [j] documents
    of the first of them. *)
Definition begun (j : nat) (rest : odict (list pyval)) : odict (list pyval) :=
  match rest with
  | [] => []
  | (name, docs) :: _ => [(name, take j docs)]
  end.

(** One [insert_many] per group, in key order. *)
Definition inserts_of (db : string) (g : odict (list pyval)) : list call :=
  map (fun item => InsertMany db item.1 item.2) g.

(** A computation after which the outlet object is related by [R] to the
    one it started from, however it ends. *)
Definition preserves (R : MongoOutlet -> MongoOutlet -> Prop) {A}
    (m : M A) : Prop :=
  forall st, R (self st) (self (snd (m st))).

(** ** Sample data *)

(** An active outlet with the constructor's defaults, not yet connected,
    in front of an empty server. *)
Definition sample_outlet : MongoOutlet :=
  init true "databay" "default_collection" None None.

Definition sample_state : state :=
  {| self := sample_outlet; mongo := ∅; calls := [] |}.

(** An inactive, disconnected outlet in front of a server that holds one
    document. *)
Definition idle_state : state :=
  {| self := init false "databay" "default_collection" None None;
     mongo := {[ "databay" := {[ "x" := [PyDict [("n", PyInt 1)]] ]} ]};
     calls := [] |}.

(** The sample outlet once connected. *)
Definition connected_state : state :=
  with_self (connected_to "databay" sample_outlet) sample_state.

(** A connected outlet whose cache knows a collection of its database. *)
Definition cached_state : state :=
  {| self := set_collections ["x"] (self connected_state);
     mongo := {[ "databay" := {[ "x" := [PyDict [("n", PyInt 1)]] ]} ]};
     calls := [] |}.

(** A connected outlet with an empty cache in front of a server that
    holds one collection. *)
Definition stocked_state : state :=
  {| self := self connected_state;
     mongo := {[ "databay" := {[ "x" := [PyDict [("n", PyInt 1)]] ]} ]};
     calls := [] |}.

(** An inactive, disconnected outlet whose database name holds a space. *)
Definition misnamed_state : state :=
  {| self := init false "my db" "default_collection" None None;
     mongo := ∅; calls := [] |}.

(** An active, disconnected outlet whose port is a string. *)
Definition misported_state : state :=
  {| self := init true "databay" "default_collection" None
               (Some (PyStr "27017"));
     mongo := ∅; calls := [] |}.

(** Documents for the default collection and for ["x"], one record
    carrying a list of two. *)
Definition sample_records : list record :=
  [ {| payload := PyDict [("a", PyInt 1)]; metadata := ∅ |};
    {| payload := PyList [PyDict [("c", PyInt 2)]; PyDict [("d", PyInt 3)]];
       metadata := {["mongodb_collection" := "x"]} |};
    {| payload := PyDict [("b", PyInt 4)]; metadata := ∅ |};
    {| payload := PyDict [("e", PyInt 7)];
       metadata := {["mongodb_collection" := "x"]} |} ].

(** One record for the default collection, with two documents of the
    same [_id]. *)
Definition twin_records : list record :=
  [ {| payload := PyList [PyDict [("_id", PyInt 1); ("v", PyInt 1)];
                          PyDict [("_id", PyInt 1); ("v", PyInt 2)]];
       metadata := ∅ |} ].

(** One more document for each of the two collections. *)
Definition more_records : list record :=
  [ {| payload := PyDict [("f", PyInt 8)];
       metadata := {["mongodb_collection" := "x"]} |};
    {| payload := PyDict [("g", PyInt 9)]; metadata := ∅ |} ].

(** A record with an empty list for the default collection, then a
    document for ["x"]. *)
Definition hollow_records : list record :=
  [ {| payload := PyList []; metadata := ∅ |};
    {| payload := PyDict [("a", PyInt 1)];
       metadata := {["mongodb_collection" := "x"]} |} ].

(** Payloads of every shape, one of them a list that holds a list. *)
Definition mixed_records : list record :=
  [ {| payload := PyDict [("a", PyInt 1)]; metadata := ∅ |};
    {| payload := PyList [PyInt 2; PyList [PyInt 3]];
       metadata := {["mongodb_collection" := "x"]} |};
    {| payload := PyDict [("b", PyInt 4)]; metadata := ∅ |};
    {| payload := PyInt 7; metadata := {["mongodb_collection" := "x"]} |} ].

End MongoOutlet.

(* ===================================================================== *)
(** * The schedule planner *)
(* ===================================================================== *)

(** [databay/planners/schedule_planner.py] is not among the sources; its
    unit test [test/unit/test_schedule_planner.py] is, and gives the names
    used below ([add_links], [remove_links], [start], [shutdown],
    [_schedule], [_unschedule], [_running], [_thread_pool], [link.job],
    [ScheduleIntervalError], [MissingLinkError]). What the operations do
    is taken from the specification of the planner. Durations and instants
    are counted in a fixed unit of time. *)

Module SchedulePlanner.

(** Modelled from the spec: the [Link] class, which is not among the
    sources, as the planner sees it: an identity with a readable interval;
    its job-binding slot and its [transfer] live in the state below. *)
Record Link : Type := { link_name : string; interval : nat }.

Global Instance Link_eq_dec : EqDecision Link.
Proof. solve_decision. Defined.

Global Instance Link_countable : Countable Link :=
  inj_countable' (fun l => (link_name l, interval l))
                 (fun p => {| link_name := p.1; interval := p.2 |})
                 (fun l => match l with Build_Link _ _ => eq_refl end).

(** Modelled from the spec: the job binding that the missing planner
    creates for a Link, the handle that ties the Link to a recurring
    trigger at a given interval. Its next-due instant is kept by the
    polling mechanism ([next_run] below). *)
Record Job : Type := { job_link : Link; job_interval : nat }.

(** Modelled from the spec: the worker pool handle of the missing
    planner. *)
Inductive ThreadPool : Type := Pool.

(** Modelled from the spec: the two errors of the missing planner, the
    IntervalError and the MissingLinkError of the specification, under
    the names the test imports. *)
Inductive exn : Type := ScheduleIntervalError | MissingLinkError.

(** How a call ends: it returns, or it raises. *)
Inductive outcome : Type := Done | Raised (e : exn).

(** Modelled from the spec: the [SchedulePlanner] object of the missing
    [schedule_planner.py] (managed Links with their job
    bindings, polling resolution, failure-containment flag, running state,
    worker pool handle, shutdown signal) together with what it acts on:
    the job-binding slot [link.job] of every Link, the next-due instant of
    every installed trigger, the clock, and the instants at which each
    Link's [transfer] was invoked. *)
Record state : Type := {
  links : gmap Link Job;
  refresh_interval : nat;
  catch_exceptions : bool;
  _running : bool;
  _thread_pool : option ThreadPool;
  shutdown_requested : bool;
  job : gmap Link Job;
  next_run : gmap Link nat;
  clock : nat;
  transfer_calls : Link -> list nat
}.

(** Modelled from the spec: the constructor of the missing
    [SchedulePlanner], called with no Link: the planner is idle. *)
Definition new_planner (refresh_interval : nat) (catch_exceptions : bool)
    : state :=
  {| links := ∅; refresh_interval := refresh_interval;
     catch_exceptions := catch_exceptions;
     _running := false; _thread_pool := None; shutdown_requested := false;
     job := ∅; next_run := ∅; clock := 0; transfer_calls := fun _ => [] |}.

(** Modelled from the spec: the interval validation rule of the missing
    planner, "an exact
    integer multiple of the polling resolution, and greater than or equal
    to it". *)
Definition valid_interval (resolution i : nat) : bool :=
  ((i mod resolution =? 0) && (resolution <=? i))%nat.

(** Modelled from the spec: [_schedule] creates the job binding of a Link,
    installs its trigger, due one interval from now, and sets the Link's
    slot. *)
Definition _schedule (l : Link) (w : state) : state :=
  let j := {| job_link := l; job_interval := interval l |} in
  {| links := links w; refresh_interval := refresh_interval w;
     catch_exceptions := catch_exceptions w;
     _running := _running w; _thread_pool := _thread_pool w;
     shutdown_requested := shutdown_requested w;
     job := <[l := j]> (job w);
     next_run := <[l := clock w + interval l]> (next_run w);
     clock := clock w; transfer_calls := transfer_calls w |}.

(** Modelled from the spec: [_unschedule] destroys the job binding of a
    Link and clears the Link's slot; it does nothing to a Link that has
    none. *)
Definition _unschedule (l : Link) (w : state) : state :=
  {| links := links w; refresh_interval := refresh_interval w;
     catch_exceptions := catch_exceptions w;
     _running := _running w; _thread_pool := _thread_pool w;
     shutdown_requested := shutdown_requested w;
     job := delete l (job w);
     next_run := delete l (next_run w);
     clock := clock w; transfer_calls := transfer_calls w |}.

(** The state with another managed set. *)
Definition set_links (m : gmap Link Job) (w : state) : state :=
  {| links := m; refresh_interval := refresh_interval w;
     catch_exceptions := catch_exceptions w;
     _running := _running w; _thread_pool := _thread_pool w;
     shutdown_requested := shutdown_requested w;
     job := job w; next_run := next_run w;
     clock := clock w; transfer_calls := transfer_calls w |}.

(** Modelled from the spec: one Link of [add_links], once validated: its
    binding is created and installed and the Link is registered. *)
Definition add_link (w : state) (l : Link) : state :=
  let w := _schedule l w in
  set_links (<[l := {| job_link := l; job_interval := interval l |}]> (links w)) w.

(** Modelled from the spec: [add_links] validates every Link against the
    polling resolution before any state is touched, raises
    [ScheduleIntervalError] if one is incompatible, and otherwise
    schedules and registers them all. *)
Definition add_links (ls : list Link) (w : state) : outcome * state :=
  if forallb (fun l => valid_interval (refresh_interval w) (interval l)) ls
  then (Done, foldl add_link w ls)
  else (Raised ScheduleIntervalError, w).

(** Modelled from the spec: one Link of [remove_links]: a registered Link
    loses its binding and leaves the managed set; a Link that is not
    registered is reported and nothing changes. *)
Definition remove_link (acc : outcome * state) (l : Link) : outcome * state :=
  let '(r, w) := acc in
  match links w !! l with
  | Some _ => (r, set_links (delete l (links w)) (_unschedule l w))
  | None => (Raised MissingLinkError, w)
  end.

(** Modelled from the spec: [remove_links] processes each Link
    independently and raises [MissingLinkError] if one of them was not
    registered. *)
Definition remove_links (ls : list Link) (w : state) : outcome * state :=
  foldl remove_link (Done, w) ls.

(** Modelled from the spec: [start] is a no-op while running; otherwise
    it creates the worker pool and marks the planner running; the polling
    loop then proceeds by [tick]. *)
Definition start (w : state) : state :=
  if _running w then w
  else
    {| links := links w; refresh_interval := refresh_interval w;
       catch_exceptions := catch_exceptions w;
       _running := true; _thread_pool := Some Pool;
       shutdown_requested := false;
       job := job w; next_run := next_run w;
       clock := clock w; transfer_calls := transfer_calls w |}.

(** Modelled from the spec: the polling loop exits, which completes a
    shutdown: the planner is no longer running and the worker pool is
    destroyed. *)
Definition exit_loop (w : state) : state :=
  {| links := links w; refresh_interval := refresh_interval w;
     catch_exceptions := catch_exceptions w;
     _running := false; _thread_pool := None;
     shutdown_requested := false;
     job := job w; next_run := next_run w;
     clock := clock w; transfer_calls := transfer_calls w |}.

(** Modelled from the spec: the signal that asks the polling loop to
    stop, which the loop inspects on every tick. *)
Definition request_shutdown (w : state) : state :=
  {| links := links w; refresh_interval := refresh_interval w;
     catch_exceptions := catch_exceptions w;
     _running := _running w; _thread_pool := _thread_pool w;
     shutdown_requested := true;
     job := job w; next_run := next_run w;
     clock := clock w; transfer_calls := transfer_calls w |}.

(** Modelled from the spec: [shutdown(wait)] is a no-op when the planner
    is not running; with [wait] it returns once the loop has exited and
    the pool is destroyed, without it only signals the loop. *)
Definition shutdown (wait : bool) (w : state) : state :=
  if _running w then
    if wait then exit_loop w else request_shutdown w
  else w.

Section Transfers.

(** Whether [transfer()] of a Link raises when invoked at a given
    instant. *)
Variable raises : Link -> nat -> bool.

(** Modelled from the spec: whether the trigger of a Link is due. *)
Definition due (w : state) (l : Link) : bool :=
  match next_run w !! l with
  | Some t => (t <=? clock w)%nat
  | None => false
  end.

(** Modelled from the spec: the polling mechanism dispatches every due
    binding to the worker pool. Each dispatched [transfer] is invoked
    and its trigger is due again one interval later; a failure is caught
    at the dispatch boundary and, unless the planner is in catch mode,
    makes the planner signal its own shutdown as [shutdown(wait=false)]
    would. *)
Definition run_pending (w : state) : state :=
  {| links := links w; refresh_interval := refresh_interval w;
     catch_exceptions := catch_exceptions w;
     _running := _running w; _thread_pool := _thread_pool w;
     shutdown_requested :=
       shutdown_requested w ||
       (negb (catch_exceptions w) &&
        bool_decide (map_Exists
                       (fun l t => t <= clock w /\ raises l (clock w) = true)
                       (next_run w)));
     job := job w;
     next_run :=
       map_imap (fun l t =>
                   Some (if (t <=? clock w)%nat then clock w + interval l
                         else t))
                (next_run w);
     clock := clock w;
     transfer_calls :=
       fun l => if due w l then transfer_calls w l ++ [clock w]
                else transfer_calls w l |}.

(** Modelled from the spec: the polling loop of the missing planner
    sleeps for one polling resolution between two checks. *)
Definition sleep (w : state) : state :=
  {| links := links w; refresh_interval := refresh_interval w;
     catch_exceptions := catch_exceptions w;
     _running := _running w; _thread_pool := _thread_pool w;
     shutdown_requested := shutdown_requested w;
     job := job w; next_run := next_run w;
     clock := clock w + refresh_interval w;
     transfer_calls := transfer_calls w |}.

(** Modelled from the spec: one polling resolution passes; a running
    planner then inspects the shutdown signal, exits its loop if it is
    set, and otherwise runs what is due. *)
Definition tick (w : state) : state :=
  let w := sleep w in
  if _running w then
    if shutdown_requested w then exit_loop w else run_pending w
  else w.

(** Modelled from the spec: what can happen to a planner. *)
Inductive event : Type :=
  | AddLinks (ls : list Link)
  | RemoveLinks (ls : list Link)
  | Start
  | Shutdown (wait : bool)
  | Tick.

(** The state after an event. *)
Definition step (w : state) (e : event) : state :=
  match e with
  | AddLinks ls => snd (add_links ls w)
  | RemoveLinks ls => snd (remove_links ls w)
  | Start => start w
  | Shutdown wait => shutdown wait w
  | Tick => tick w
  end.

(** Modelled from the spec: the states a planner can be in, from its
    construction on. *)
Inductive reachable : state -> Prop :=
  | reachable_new resolution catch :
      reachable (new_planner resolution catch)
  | reachable_step w e :
      reachable w -> reachable (step w e).

End Transfers.

(** ** What holds of every planner *)

(** A planner that is not running has no worker pool, the slot of a Link
    holds its binding exactly while the Link is registered, and every
    registered Link has a valid interval. *)
Definition consistent (w : state) : Prop :=
  (_running w = false -> _thread_pool w = None) /\
  job w = links w /\
  (forall l j, links w !! l = Some j ->
     valid_interval (refresh_interval w) (interval l) = true).

(** ** A planner left to its polling loop *)

Section Ticks.

Variable raises : Link -> nat -> bool.

(** [n] polling resolutions pass with nothing else happening. *)
Definition ticks (n : nat) (w : state) : state := Nat.iter n (tick raises) w.

End Ticks.

(** Where a running planner in catch mode stands [q] whole intervals of
    [l] and [r] more polling resolutions after the state [w0] in which
    [l] was due one interval later. *)
Definition on_schedule (w0 : state) (l : Link) (m q r : nat) (w : state)
    : Prop :=
  _running w = true /\ shutdown_requested w = false /\
  catch_exceptions w = true /\
  refresh_interval w = refresh_interval w0 /\
  _thread_pool w = _thread_pool w0 /\
  links w = links w0 /\ job w = job w0 /\
  clock w = clock w0 + (q * m + r) * refresh_interval w0 /\
  next_run w !! l = Some (clock w0 + (q + 1) * interval l) /\
  transfer_calls w l =
    transfer_calls w0 l ++
    map (fun i => clock w0 + i * interval l) (seq 1 q).

(** ** Sample planners *)

(** A Link whose interval is the resolution of the tests' planner, and
    one whose interval is half of a resolution of 200 units. *)
Definition fast_link : Link := {| link_name := "fast"; interval := 20 |}.

Definition short_link : Link := {| link_name := "short"; interval := 100 |}.

(** The planner of the tests' [setUp], with a resolution of 20 units. *)
Definition test_planner (catch : bool) : state := new_planner 20 catch.

Definition always_raises : Link -> nat -> bool := fun _ _ => true.

Definition started_planner : state :=
  start (snd (add_links [fast_link] (test_planner true))).

Definition started_propagating_planner : state :=
  start (snd (add_links [fast_link] (test_planner false))).

End SchedulePlanner.

(* ===================================================================== *)
(** * Properties of the MongoDB outlet *)
(* ===================================================================== *)

Module MongoOutletSpec.

Import MongoOutlet.

(** ** Insertion-ordered dictionaries: lookup after assignment *)

Lemma od_get_set_eq {V} (k : string) (v : V) (d : odict V) :
  od_get k (od_set k v d) = Some v.
Proof.
  induction d as [|[k' v'] d IH]; simpl.
  - by rewrite decide_True.
  - destruct (decide (k = k')) as [->|Hne]; simpl.
    + by rewrite decide_True.
    + by rewrite decide_False.
Qed.

Lemma od_get_set_ne {V} (k k' : string) (v : V) (d : odict V) :
  k <> k' -> od_get k' (od_set k v d) = od_get k' d.
Proof.
  intros Hne. induction d as [|[k0 v0] d IH]; simpl.
  - rewrite decide_False; [done | congruence].
  - destruct (decide (k = k0)) as [->|Hk]; simpl.
    + rewrite !decide_False; [done | congruence | congruence].
    + destruct (decide (k' = k0)); [done | apply IH].
Qed.

Lemma od_keys_set {V} (k : string) (v : V) (d : odict V) :
  od_keys (od_set k v d) = if od_mem k d then od_keys d else od_keys d ++ [k].
Proof.
  unfold od_keys, od_mem. induction d as [|[k' v'] d IH]; [done|].
  cbn [od_set od_get].
  destruct (decide (k = k')) as [->|Hne]; [done|].
  rewrite !fmap_cons, IH. by destruct (od_get k d).
Qed.

Lemma od_get_None_keys {V} (k : string) (d : odict V) :
  od_get k d = None <-> k ∉ od_keys d.
Proof.
  unfold od_keys. induction d as [|[k' v'] d IH].
  - split; [intros _; apply not_elem_of_nil | done].
  - cbn [od_get]. rewrite fmap_cons, not_elem_of_cons. cbn [fst].
    destruct (decide (k = k')) as [->|Hne].
    + split; [done | intros [? _]; done].
    + rewrite IH. tauto.
Qed.

Lemma od_set_NoDup {V} (k : string) (v : V) (d : odict V) :
  NoDup (od_keys d) -> NoDup (od_keys (od_set k v d)).
Proof.
  intros Hnd. rewrite od_keys_set. unfold od_mem.
  destruct (od_get k d) eqn:Hget; [done|].
  apply NoDup_app. split; [done|]. split; [|apply NoDup_singleton].
  intros x Hx Hx'. apply list_elem_of_singleton in Hx'. subst x.
  by apply od_get_None_keys in Hget.
Qed.

(** ** [_group_by_collection]: one record, then all of them *)

Lemma group_record_get (o : MongoOutlet) (d : odict (list pyval))
    (r : record) (name : string) :
  od_get name (group_record o d r) =
    if decide (destination (collection o) r = name)
    then Some (default [] (od_get name d) ++ contribution (payload r))
    else od_get name d.
Proof.
  unfold group_record. fold (destination (collection o) r).
  set (dest := destination (collection o) r).
  set (d' := if od_mem dest d then d else od_set dest [] d).
  assert (Hd' : forall n, default [] (od_get n d') = default [] (od_get n d)).
  { intros n. unfold d', od_mem. destruct (od_get dest d) eqn:Hget; [done|].
    destruct (decide (dest = n)) as [<-|Hne].
    - by rewrite od_get_set_eq, Hget.
    - by rewrite od_get_set_ne. }
  assert (Hne' : forall n, dest <> n -> od_get n d' = od_get n d).
  { intros n Hne. unfold d', od_mem. destruct (od_get dest d); [done|].
    by rewrite od_get_set_ne. }
  destruct (decide (dest = name)) as [<-|Hne].
  - rewrite Hd'. destruct (payload r); simpl; by rewrite od_get_set_eq.
  - destruct (payload r); simpl; rewrite od_get_set_ne by done; by apply Hne'.
Qed.

Lemma group_record_NoDup (o : MongoOutlet) (d : odict (list pyval)) (r : record) :
  NoDup (od_keys d) -> NoDup (od_keys (group_record o d r)).
Proof.
  intros Hnd. unfold group_record.
  set (dest := destination (collection o) r).
  assert (NoDup (od_keys (if od_mem dest d then d else od_set dest [] d))).
  { destruct (od_mem dest d); [done | by apply od_set_NoDup]. }
  destruct (payload r); by apply od_set_NoDup.
Qed.

Lemma grouped_cons (dflt name : string) (r : record) (rs : list record) :
  grouped dflt name (r :: rs) =
    if decide (destination dflt r = name)
    then contribution (payload r) ++ grouped dflt name rs
    else grouped dflt name rs.
Proof.
  unfold grouped. rewrite filter_cons.
  by destruct (decide (destination dflt r = name)).
Qed.

Lemma fold_group_get (o : MongoOutlet) (rs : list record)
    (d : odict (list pyval)) (name : string) :
  od_get name (fold_left (group_record o) rs d) =
    if decide (filter (fun r => destination (collection o) r = name) rs = [])
    then od_get name d
    else Some (default [] (od_get name d) ++ grouped (collection o) name rs).
Proof.
  revert d. induction rs as [|r rs IH]; intros d; simpl; [done|].
  rewrite IH, group_record_get, grouped_cons, filter_cons.
  destruct (decide (destination (collection o) r = name)) as [Hd|Hd]; simpl.
  - destruct (decide (filter _ rs = [])) as [Hnil|Hnil].
    + unfold grouped. rewrite Hnil. simpl. by rewrite !app_nil_r.
    + by rewrite app_assoc.
  - done.
Qed.

Lemma fold_group_NoDup (o : MongoOutlet) (rs : list record)
    (d : odict (list pyval)) :
  NoDup (od_keys d) -> NoDup (od_keys (fold_left (group_record o) rs d)).
Proof.
  revert d. induction rs as [|r rs IH]; intros d Hnd; simpl; [done|].
  by apply IH, group_record_NoDup.
Qed.

Lemma group_by_collection_default (o : MongoOutlet) (records : list record)
    (name : string) :
  default [] (od_get name (_group_by_collection o records)) =
    grouped (collection o) name records.
Proof.
  unfold _group_by_collection. rewrite fold_group_get. simpl.
  destruct (decide (filter _ records = [])) as [Hnil|Hnil]; [|done].
  unfold grouped. by rewrite Hnil.
Qed.

Lemma elem_of_grouped (dflt name : string)
    (records : list record) (x : pyval) :
  x ∈ grouped dflt name records ->
  exists r, r ∈ records /\ destination dflt r = name /\
            x ∈ contribution (payload r).
Proof.
  unfold grouped. intros Hx.
  apply list_elem_of_In, in_concat in Hx as (l & Hl & Hx).
  apply in_map_iff in Hl as (r & <- & Hr).
  apply list_elem_of_In, list_elem_of_filter in Hr as [Hd Hr].
  exists r. split; [done|]. split; [done|]. by apply list_elem_of_In.
Qed.

(** ** The server after a write *)

Lemma elem_of_collection_names (m : gmap string (list pyval)) (name : string) :
  name ∈ (map_to_list m).*1 <-> is_Some (m !! name).
Proof.
  rewrite list_elem_of_fmap. split.
  - intros ([k v] & -> & Hkv). apply elem_of_map_to_list in Hkv. by exists v.
  - intros [v Hv]. exists (name, v). split; [done|].
    by apply elem_of_map_to_list.
Qed.

Lemma collections_of_insert (m : gmap string (gmap string (list pyval)))
    (db db' : string) (c : gmap string (list pyval)) :
  collections_of (<[db := c]> m) db' =
    if decide (db = db') then c else collections_of m db'.
Proof.
  unfold collections_of. rewrite lookup_insert.
  by destruct (decide (db = db')).
Qed.

Lemma documents_written (m : gmap string (gmap string (list pyval)))
    (db name db' name' : string) (docs : list pyval) :
  documents (written db name docs m) db' name' =
    if decide (db = db' /\ name = name')
    then documents m db name ++ docs
    else documents m db' name'.
Proof.
  unfold written, documents at 1. rewrite collections_of_insert.
  destruct (decide (db = db')) as [<-|Hdb].
  - rewrite lookup_insert. destruct (decide (name = name')) as [<-|Hn].
    + by rewrite decide_True.
    + rewrite decide_False by tauto. done.
  - rewrite decide_False by tauto. done.
Qed.

Lemma documents_created (m : gmap string (gmap string (list pyval)))
    (db name db' name' : string) :
  documents (created db name m) db' name' = documents m db' name'.
Proof.
  unfold created, documents at 1. rewrite collections_of_insert.
  destruct (decide (db = db')) as [<-|Hdb]; [|done].
  rewrite lookup_insert. by destruct (decide (name = name')) as [<-|Hn].
Qed.

Lemma documents_appended (m : gmap string (gmap string (list pyval)))
    (db name db' name' : string) (docs : list pyval) :
  documents (appended db name docs m) db' name' =
    if decide (db = db' /\ name = name')
    then documents m db name ++ docs
    else documents m db' name'.
Proof.
  destruct docs as [|x docs]; [|apply documents_written]. simpl.
  destruct (decide _) as [[<- <-]|]; [by rewrite app_nil_r | done].
Qed.

Lemma collections_of_created (m : gmap string (gmap string (list pyval)))
    (db name db' k : string) :
  is_Some (collections_of (created db name m) db' !! k) <->
  (db = db' /\ name = k) \/ is_Some (collections_of m db' !! k).
Proof.
  unfold created. rewrite collections_of_insert.
  destruct (decide (db = db')) as [<-|Hne]; [|tauto].
  rewrite lookup_insert. destruct (decide (name = k)) as [->|Hk].
  - split; [by left | eauto].
  - tauto.
Qed.

Lemma collections_of_written (m : gmap string (gmap string (list pyval)))
    (db name db' k : string) (docs : list pyval) :
  is_Some (collections_of (written db name docs m) db' !! k) <->
  (db = db' /\ name = k) \/ is_Some (collections_of m db' !! k).
Proof.
  unfold written. rewrite collections_of_insert.
  destruct (decide (db = db')) as [<-|Hne]; [|tauto].
  rewrite lookup_insert. destruct (decide (name = k)) as [->|Hk].
  - split; [by left | eauto].
  - tauto.
Qed.

Lemma collections_of_appended (m : gmap string (gmap string (list pyval)))
    (db name db' k : string) (docs : list pyval) :
  is_Some (collections_of m db' !! k) ->
  is_Some (collections_of (appended db name docs m) db' !! k).
Proof.
  intros Hk. destruct docs; [done|]. simpl.
  apply collections_of_written. by right.
Qed.

(** ** Logs *)

Lemma round_trips_app (l1 l2 : list call) :
  round_trips (l1 ++ l2) = round_trips l1 ++ round_trips l2.
Proof.
  induction l1 as [|c l1 IH]; [done|]. destruct c; simpl; by rewrite IH.
Qed.

Lemma inserts_app (l1 l2 : list call) :
  inserts (l1 ++ l2) = inserts l1 ++ inserts l2.
Proof.
  induction l1 as [|c l1 IH]; [done|]. destruct c; simpl; by rewrite IH.
Qed.

Lemma inserts_round_trips (l : list call) :
  inserts (round_trips l) = inserts l.
Proof. induction l as [|c l IH]; [done|]. destruct c; simpl; by rewrite ?IH. Qed.

Lemma inserts_inserts_of (db : string) (g : odict (list pyval)) :
  inserts (inserts_of db g) = inserts_of db g.
Proof. induction g as [|[k v] g IH]; simpl; [done | by rewrite IH]. Qed.

Lemma round_trips_inserts_of (db : string) (g : odict (list pyval)) :
  round_trips (inserts_of db g) = inserts_of db g.
Proof. induction g as [|[k v] g IH]; simpl; [done | by rewrite IH]. Qed.

Lemma round_trips_take_inserts_of (n : nat) (db : string)
    (g : odict (list pyval)) :
  round_trips (take n (inserts_of db g)) = take n (inserts_of db g).
Proof.
  revert n. induction g as [|[k v] g IH]; intros [|n]; simpl; try done.
  by rewrite IH.
Qed.

Section DriverFacts.

Variable fault : list call -> call -> option string.
Variable kept : list call -> call -> nat.

(** *** [connect] and [disconnect] *)

Lemma disconnect_run (st : state) :
  disconnect st = (Return tt, with_self (disconnected (self st)) st).
Proof.
  destruct st as [o m l]. unfold disconnect, bind, get_self, set_self.
  simpl. destruct (_client o) eqn:Hc; simpl;
    destruct (_db o) eqn:Hd; simpl; by destruct o; simplify_eq/=.
Qed.

(** Every run of [connect]: nothing to do, or a client that cannot be
    built, or a database that cannot be taken from it, or a fresh
    connection. *)
Lemma connect_run (name : option string) (st : state) :
  let n := default (database_name (self st)) name in
  let c1 := NewClient (host (self st)) (port (self st)) in
  let c2 := GetDatabase n in
  let client :=
    {| client_host := host (self st); client_port := port (self st) |} in
  connect fault name st =
    if connected_with n (self st) then (Return true, st)
    else
      match fault (calls st) c1 with
      | Some e =>
          (Raise (DriverError e), logged c1 (with_self (released (self st)) st))
      | None =>
          match fault (calls st ++ [c1]) c2 with
          | Some e =>
              (Raise (DriverError e),
               logged c2 (logged c1
                 (with_self (set_client (Some client) (released (self st)))
                            st)))
          | None =>
              (Return false,
               logged c2 (logged c1
                 (with_self (connected_to n (self st)) st)))
          end
      end.
Proof.
  destruct st as [[a h p dn col cl db cache] m l].
  unfold connected_with, released, connect, disconnect, bind, get_self,
    set_self, new_client, get_database, driver, ret, logged, with_self,
    connected_to, disconnected, set_client, set_db.
  simpl.
  destruct cl as [c|], db as [d|]; simpl;
    try (destruct (decide (db_name d = default dn name));
         [by rewrite bool_decide_eq_true_2
         |rewrite bool_decide_eq_false_2 by done]);
    simpl;
    (destruct (fault l _); [done|]); simpl;
    by destruct (fault (l ++ _) _).
Qed.

(** What [connect] never touches, and what it leaves. *)
Lemma connect_facts (name : option string) (st : state) :
  let n := default (database_name (self st)) name in
  let out := connect fault name st in
  mongo (snd out) = mongo st /\
  round_trips (calls (snd out)) = round_trips (calls st) /\
  _collections (self (snd out)) = _collections (self st) /\
  active (self (snd out)) = active (self st) /\
  collection (self (snd out)) = collection (self st) /\
  database_name (self (snd out)) = database_name (self st) /\
  match fst out with
  | Return _ => _db (self (snd out)) = Some {| db_name := n |}
  | Raise e =>
      (exists what, e = DriverError what) /\
      (_db (self st) = None -> _db (self (snd out)) = None)
  end.
Proof.
  intros n out. subst n out. rewrite connect_run.
  assert (Hrel : _collections (released (self st)) = _collections (self st) /\
                 active (released (self st)) = active (self st) /\
                 collection (released (self st)) = collection (self st) /\
                 database_name (released (self st)) = database_name (self st) /\
                 (_db (self st) = None -> _db (released (self st)) = None)).
  { unfold released.
    destruct (_client (self st)) eqn:Hc, (_db (self st)) eqn:Hd;
      by repeat split. }
  destruct Hrel as (? & ? & ? & ? & ?).
  destruct (connected_with _ (self st)) eqn:Hconn.
  { cbn [fst snd]. repeat split. unfold connected_with in Hconn.
    destruct (_client (self st)), (_db (self st)) as [[d]|]; try done.
    apply bool_decide_eq_true in Hconn. simpl in Hconn. by subst. }
  destruct (fault (calls st) _) as [e|].
  { cbn [fst snd]. simpl. rewrite round_trips_app, app_nil_r.
    repeat split; eauto. }
  destruct (fault (calls st ++ _) _) as [e|].
  { cbn [fst snd]. simpl. rewrite !round_trips_app, !app_nil_r.
    repeat split; eauto. }
  cbn [fst snd]. simpl. rewrite !round_trips_app, !app_nil_r.
  repeat split; eauto.
Qed.

(** *** The decorator of [push] *)

Lemma push_run (records : list record) (update : string) (st : state) :
  push fault kept records update st =
    match _db (self st) with
    | Some _ => push_body fault kept records update st
    | None =>
        match connect fault None st with
        | (Return _, st1) => push_body fault kept records update st1
        | (Raise e, st1) => (Raise e, st1)
        end
    end.
Proof.
  unfold push, ensure_connection_async. unfold bind at 1, get_self.
  cbn [self]. destruct (_db (self st)); [done|]. unfold bind at 1.
  by destruct (connect fault None st) as [[b|e] st1].
Qed.

(** Either [push] runs its body, in the state it was called in or in
    the one [connect] has left, connected to the target database; or
    [connect] raises and so does [push]. *)
Lemma push_enters (records : list record) (update : string) (st : state) :
  (exists st1,
     push fault kept records update st =
       push_body fault kept records update st1 /\
     mongo st1 = mongo st /\
     round_trips (calls st1) = round_trips (calls st) /\
     _collections (self st1) = _collections (self st) /\
     active (self st1) = active (self st) /\
     collection (self st1) = collection (self st) /\
     _db (self st1) = Some {| db_name := target_database (self st) |} /\
     (is_Some (_db (self st)) -> st1 = st)) \/
  (exists what st1,
     push fault kept records update st = (Raise (DriverError what), st1) /\
     connect fault None st = (Raise (DriverError what), st1) /\
     _db (self st) = None /\
     mongo st1 = mongo st /\
     round_trips (calls st1) = round_trips (calls st) /\
     _collections (self st1) = _collections (self st) /\
     _db (self st1) = None).
Proof.
  rewrite push_run. unfold target_database.
  destruct (_db (self st)) as [[d]|] eqn:Hdb.
  { left. exists st. by repeat split. }
  pose proof (connect_facts None st) as (Hm & Hrt & Hcache & Hact & Hcoll & _ & Hout).
  cbn zeta in *.
  destruct (connect fault None st) as [[b|e] st1]; cbn [fst snd] in *.
  - left. exists st1. by repeat split.
  - right. destruct Hout as [[what ->] Hnone]. exists what, st1.
    repeat split; try done. by apply Hnone.
Qed.

Lemma push_body_active (records : list record) (update : string) (st : state) :
  active (self st) = true ->
  push_body fault kept records update st =
    for_each (_group_by_collection (self st) records)
             (push_collection fault kept) st.
Proof.
  intros Hact. unfold push_body, bind, get_self. by rewrite Hact.
Qed.

Lemma push_body_inactive (records : list record) (update : string)
    (st : state) :
  active (self st) = false ->
  push_body fault kept records update st = (Return tt, st).
Proof.
  intros Hact. unfold push_body, bind, get_self. by rewrite Hact.
Qed.

(** *** One insert *)

Lemma insert_many_run (c : Collection) (docs : list pyval) (st : state) :
  let call := InsertMany (coll_db c) (coll_name c) docs in
  exists r m j,
    insert_many fault kept c docs st =
      (r, {| self := self st; mongo := m; calls := calls st ++ [call] |}) /\
    (forall db n,
       documents m db n =
         if decide (coll_db c = db /\ coll_name c = n)
         then documents (mongo st) db n ++ take j docs
         else documents (mongo st) db n) /\
    (forall db k, is_Some (collections_of (mongo st) db !! k) ->
                  is_Some (collections_of m db !! k)) /\
    match r with
    | Return _ =>
        take j docs = docs /\
        m = written (coll_db c) (coll_name c) docs (mongo st) /\
        fault (calls st) call = None
    | Raise e => exists what, e = DriverError what /\
                              fault (calls st) call = Some what
    end.
Proof.
  intros call. subst call. unfold insert_many.
  destruct (fault (calls st) _) as [e|] eqn:Hf.
  - eexists _, _, (kept (calls st) _). split; [reflexivity|]. split.
    { intros db n. rewrite documents_appended.
      destruct (decide _) as [[<- <-]|]; done. }
    split; [intros db k; apply collections_of_appended|]. eauto.
  - eexists _, _, (length docs). split; [reflexivity|]. split.
    { intros db n. rewrite documents_written, firstn_all.
      destruct (decide _) as [[<- <-]|]; done. }
    split.
    { intros db k Hk. apply collections_of_written. by right. }
    by rewrite firstn_all.
Qed.

(** *** One group: the lookup, with its creation and second lookup *)

Lemma lookup_run (st : state) (d : Database) (name : string) :
  _db (self st) = Some d ->
  exists r st1 pre,
    try_except_not_found
      (_get_collection fault name)
      (_add_collection fault kept name ;; _get_collection fault name) st
      = (r, st1) /\
    _db (self st1) = Some d /\
    calls st1 = calls st ++ pre /\
    inserts pre = [] /\
    (forall db n, documents (mongo st1) db n = documents (mongo st) db n) /\
    (forall db k, is_Some (collections_of (mongo st) db !! k) ->
                  is_Some (collections_of (mongo st1) db !! k)) /\
    (name ∈ _collections (self st) -> pre = [] /\ st1 = st) /\
    (forall k, k ∈ _collections (self st) ->
       is_Some (collections_of (mongo st) (db_name d) !! k) ->
       k ∈ _collections (self st1)) /\
    match r with
    | Return c =>
        c = {| coll_db := db_name d; coll_name := name |} /\
        name ∈ _collections (self st1)
    | Raise e => exists what, e = DriverError what
    end.
Proof.
  intros Hdb. destruct st as [o m l]. simpl in Hdb.
  unfold try_except_not_found, _get_collection, bind, get_self. simpl.
  destruct (bool_decide (name ∈ _collections o)) eqn:Hcache; simpl.
  { apply bool_decide_eq_true in Hcache. rewrite Hdb.
    eexists _, _, []. split; [reflexivity|]. simpl.
    rewrite app_nil_r. by repeat split. }
  apply bool_decide_eq_false in Hcache.
  rewrite Hdb. unfold list_collection_names, driver, bind. simpl.
  destruct (fault l _); simpl.
  { eexists _, _, [_]. split; [reflexivity|]. simpl.
    repeat split; eauto; done. }
  destruct (bool_decide (name ∈ (map_to_list _).*1)) eqn:Hnames; simpl.
  { apply bool_decide_eq_true in Hnames. rewrite Hdb.
    eexists _, _, [_]. split; [reflexivity|]. simpl.
    repeat split; eauto; try done.
    intros k _ Hk. by apply elem_of_collection_names. }
  apply bool_decide_eq_false in Hnames.
  rewrite elem_of_collection_names in Hnames.
  apply eq_None_not_Some in Hnames.
  unfold _add_collection, ensure_connection, bind, get_self. simpl.
  rewrite Hdb. simpl. rewrite Hdb.
  unfold create_collection. simpl.
  destruct (fault (l ++ _) _); simpl.
  { eexists _, _, [_; _]. split; [reflexivity|]. simpl.
    rewrite <- app_assoc.
    split; [done|]. split; [done|]. split; [done|]. split.
    { intros db n. destruct (decide _); [done | apply documents_created]. }
    split.
    { intros db k Hk. destruct (decide _); [done|].
      apply collections_of_created. by right. }
    split; [done|]. split; [|eauto].
    intros k _ Hk. by apply elem_of_collection_names. }
  rewrite bool_decide_eq_false_2; last first.
  { rewrite elem_of_collection_names. by rewrite Hnames. }
  simpl. rewrite Hdb. unfold list_collection_names, driver. simpl.
  destruct (fault ((l ++ _) ++ _) _); simpl.
  { eexists _, _, [_; _; _]. split; [reflexivity|]. simpl.
    rewrite <- !app_assoc.
    split; [done|]. split; [done|]. split; [done|]. split.
    { intros db n. apply documents_created. }
    split.
    { intros db k Hk. apply collections_of_created. by right. }
    split; [done|]. split; [|eauto].
    intros k _ Hk. by apply elem_of_collection_names. }
  rewrite bool_decide_eq_true_2; last first.
  { apply elem_of_collection_names, collections_of_created. by left. }
  simpl. rewrite Hdb.
  eexists _, _, [_; _; _]. split; [reflexivity|]. simpl.
  rewrite <- !app_assoc.
  split; [done|]. split; [done|]. split; [done|]. split.
  { intros db n. apply documents_created. }
  split.
  { intros db k Hk. apply collections_of_created. by right. }
  split; [done|]. split.
  { intros k _ Hk. apply elem_of_collection_names, collections_of_created.
    by right. }
  split; [done|].
  apply elem_of_collection_names, collections_of_created. by left.
Qed.

(** *** One group *)

(** Every run of the loop body on a connected outlet: it stays
    connected; the collection of the group has received the first [j]
    documents of the group, all of them when the body returns, and no
    other collection has changed; the log has gained at most one insert,
    the one of the group, and exactly that call when the name was in the
    cache; and the body raises nothing but what the driver raises. *)
Lemma push_collection_run (st : state) (d : Database)
    (name : string) (docs : list pyval) :
  _db (self st) = Some d ->
  exists r st' j i,
    push_collection fault kept (name, docs) st = (r, st') /\
    _db (self st') = Some d /\
    (forall db n,
       documents (mongo st') db n =
         if decide (db_name d = db /\ name = n)
         then documents (mongo st) db n ++ take j docs
         else documents (mongo st) db n) /\
    (forall db k, is_Some (collections_of (mongo st) db !! k) ->
                  is_Some (collections_of (mongo st') db !! k)) /\
    (forall k, k ∈ _collections (self st) ->
       is_Some (collections_of (mongo st) (db_name d) !! k) ->
       k ∈ _collections (self st')) /\
    inserts (calls st') =
      inserts (calls st) ++ take i [InsertMany (db_name d) name docs] /\
    (name ∈ _collections (self st) ->
     calls st' = calls st ++ [InsertMany (db_name d) name docs] /\
     _collections (self st') = _collections (self st)) /\
    match r with
    | Return _ =>
        take j docs = docs /\ i = 1 /\
        name ∈ _collections (self st') /\
        is_Some (collections_of (mongo st') (db_name d) !! name)
    | Raise e => (exists what, e = DriverError what) /\ i <= 1
    end.
Proof.
  intros Hdb.
  destruct (lookup_run st d name Hdb)
    as (r1 & st1 & pre & Hrun1 & Hdb1 & Hcalls1 & Hpre & Hdocs1 & Hcolls1 &
        Hhit & Hkeep1 & Hr1).
  assert (Hbody : push_collection fault kept (name, docs) st =
    match try_except_not_found
            (_get_collection fault name)
            (_add_collection fault kept name ;; _get_collection fault name) st
    with
    | (Return c, st') => insert_many fault kept c docs st'
    | (Raise e, st') => (Raise e, st')
    end) by reflexivity.
  rewrite Hbody, Hrun1. clear Hbody.
  destruct r1 as [c|e].
  - destruct Hr1 as [-> Hin1].
    destruct (insert_many_run {| coll_db := db_name d; coll_name := name |}
                docs st1) as (r & m & j & Hrun & Hdocs & Hcolls & Hr).
    cbn [coll_db coll_name] in *. rewrite Hrun.
    exists r, {| self := self st1; mongo := m;
                 calls := calls st1 ++ [InsertMany (db_name d) name docs] |},
           j, 1.
    cbn [self mongo calls].
    split; [done|]. split; [done|]. split.
    { intros db n. rewrite Hdocs, !Hdocs1. done. }
    split; [intros db k Hk; by apply Hcolls, Hcolls1|].
    split; [done|]. split.
    { rewrite Hcalls1, !inserts_app, Hpre. by rewrite app_nil_r. }
    split.
    { intros Hin. destruct (Hhit Hin) as [-> ->]. by rewrite app_nil_r in Hcalls1. }
    destruct r as [[]|e].
    + destruct Hr as (Htake & -> & _). split; [done|]. split; [done|].
      split; [done|]. apply collections_of_written. by left.
    + destruct Hr as (what & -> & _). split; [eauto | lia].
  - exists (Raise e), st1, 0, 0. rewrite take_0, app_nil_r.
    split; [done|]. split; [done|]. split.
    { intros db n. rewrite Hdocs1, app_nil_r. by destruct (decide _). }
    split; [done|]. split; [done|]. split.
    { rewrite Hcalls1, inserts_app, Hpre. by rewrite app_nil_r. }
    split; [|split; [done | lia]].
    intros Hin. destruct (Hhit Hin) as [-> ->].
    (* a cached name cannot make the lookup raise *)
    exfalso. clear -Hrun1 Hin Hdb. destruct st as [o m l]. simpl in *.
    unfold try_except_not_found, _get_collection, bind, get_self in Hrun1.
    simpl in Hrun1. rewrite bool_decide_eq_true_2 in Hrun1 by done.
    simpl in Hrun1. by rewrite Hdb in Hrun1.
Qed.

(** *** All groups *)

Lemma od_get_app {V} (k : string) (d1 d2 : odict V) :
  od_get k (d1 ++ d2) =
    match od_get k d1 with
    | Some v => Some v
    | None => od_get k d2
    end.
Proof.
  induction d1 as [|[k' v'] d1 IH]; simpl; [done|].
  by destruct (decide (k = k')).
Qed.

Lemma od_get_begun_fresh (k : string) (j : nat)
    (done rest : odict (list pyval)) :
  k ∉ od_keys (done ++ rest) -> od_get k (done ++ begun j rest) = None.
Proof.
  intros Hk. apply od_get_None_keys. intros Hin. apply Hk.
  unfold od_keys in *. rewrite fmap_app in *.
  apply elem_of_app in Hin as [Hin|Hin]; apply elem_of_app; [by left|].
  right. destruct rest as [|[k' docs] rest]; [done|].
  simpl in Hin. apply list_elem_of_singleton in Hin. subst. by left.
Qed.

Lemma take_inserts_of_one (i : nat) (c : call) (l : list call) :
  i <= 1 -> take i (c :: l) = take i [c].
Proof. intros Hi. destruct i as [|[|i]]; [done | done | lia]. Qed.

(** The loop writes the groups in key order and stops at the first that
    raises: the groups before it are in their collections, the group it
    stopped in has its first [j] documents in its collection, and
    nothing else has changed; the inserts it has issued are the first
    [n] of one insert per group. *)
Lemma for_each_push_run (g : odict (list pyval)) (st : state) (d : Database) :
  _db (self st) = Some d ->
  NoDup (od_keys g) ->
  exists r st' done rest j n,
    for_each g (push_collection fault kept) st = (r, st') /\
    _db (self st') = Some d /\
    g = done ++ rest /\
    (forall db name,
       documents (mongo st') db name =
         if decide (db = db_name d)
         then documents (mongo st) db name ++
              default [] (od_get name (done ++ begun j rest))
         else documents (mongo st) db name) /\
    inserts (calls st') =
      inserts (calls st) ++ take n (inserts_of (db_name d) g) /\
    (forall db k, is_Some (collections_of (mongo st) db !! k) ->
                  is_Some (collections_of (mongo st') db !! k)) /\
    (forall k, k ∈ _collections (self st) ->
       is_Some (collections_of (mongo st) (db_name d) !! k) ->
       k ∈ _collections (self st')) /\
    ((forall k, k ∈ od_keys g -> k ∈ _collections (self st)) ->
     calls st' = calls st ++ take n (inserts_of (db_name d) g) /\
     _collections (self st') = _collections (self st)) /\
    match r with
    | Return _ =>
        rest = [] /\
        take n (inserts_of (db_name d) g) = inserts_of (db_name d) g /\
        forall k, k ∈ od_keys g ->
          k ∈ _collections (self st') /\
          is_Some (collections_of (mongo st') (db_name d) !! k)
    | Raise e => exists what, e = DriverError what
    end.
Proof.
  revert st. induction g as [|[k0 docs] g IH]; intros st Hdb Hnd.
  { exists (Return tt), st, [], [], 0, 0. simpl. rewrite !app_nil_r.
    split; [done|]. split; [done|]. split; [done|]. split.
    { intros db name. destruct (decide _); [by rewrite app_nil_r | done]. }
    split; [done|]. split; [done|]. split; [done|]. split; [done|].
    split; [done|]. split; [done|].
    intros k Hk. by apply not_elem_of_nil in Hk. }
  unfold od_keys in Hnd. rewrite fmap_cons in Hnd.
  apply NoDup_cons in Hnd as [Hk0 Hnd]. cbn [fst] in Hk0.
  destruct (push_collection_run st d k0 docs Hdb)
    as (r1 & st1 & j1 & i1 & Hrun1 & Hdb1 & Hdocs1 & Hcolls1 & Hkeep1 &
        Hins1 & Hhit1 & Hr1).
  destruct r1 as [[]|e].
  - destruct Hr1 as (Htake1 & -> & Hin1 & Hex1).
    destruct (IH st1 Hdb1 Hnd)
      as (r & st' & done & rest & j & n & Hrun & Hdb' & -> & Hdocs & Hins &
          Hcolls & Hkeep & Hwarm & Hr).
    exists r, st', ((k0, docs) :: done), rest, j, (S n).
    split. { cbn [for_each]. unfold bind. by rewrite Hrun1. }
    split; [done|]. split; [done|]. split.
    { intros db name. rewrite Hdocs, Hdocs1, Htake1.
      cbn [app od_get].
      destruct (decide (db = db_name d)) as [->|Hne].
      - destruct (decide (name = k0)) as [->|Hnk].
        + rewrite decide_True by done.
          rewrite (od_get_begun_fresh k0 j done rest Hk0). simpl.
          by rewrite app_nil_r.
        + rewrite decide_False; [done | intros [_ ?]; congruence].
      - rewrite decide_False; [done | intros [? _]; congruence]. }
    split.
    { rewrite Hins, Hins1. simpl. by rewrite <- app_assoc. }
    split; [intros db k Hk; by apply Hcolls, Hcolls1|].
    split.
    { intros k Hk Hsome. apply Hkeep; [by apply Hkeep1 | by apply Hcolls1]. }
    split.
    { intros Hall.
      destruct Hhit1 as [Hcalls1 Hcache1].
      { apply Hall. unfold od_keys. rewrite fmap_cons. by left. }
      destruct Hwarm as [Hcalls' Hcache'].
      { intros k Hk. rewrite Hcache1. apply Hall.
        unfold od_keys. rewrite fmap_cons. by right. }
      split; [|congruence].
      rewrite Hcalls', Hcalls1. simpl. by rewrite <- app_assoc. }
    destruct r as [[]|e]; [|done].
    destruct Hr as (-> & Htake & Hkeys). split; [done|]. split.
    { simpl. by rewrite Htake. }
    intros k Hk. unfold od_keys in Hk. rewrite fmap_cons in Hk.
    apply elem_of_cons in Hk as [->|Hk]; [|by apply Hkeys].
    split; [by apply Hkeep | by apply Hcolls].
  - destruct Hr1 as [Hwhat Hi1].
    exists (Raise e), st1, [], ((k0, docs) :: g), j1, i1.
    split. { cbn [for_each]. unfold bind. by rewrite Hrun1. }
    split; [done|]. split; [done|]. split.
    { intros db name. rewrite Hdocs1. cbn [app begun od_get].
      destruct (decide (db = db_name d)) as [->|Hne].
      - destruct (decide (name = k0)) as [->|Hnk].
        + by rewrite decide_True.
        + rewrite decide_False; [|intros [_ ?]; congruence].
          simpl. by rewrite app_nil_r.
      - rewrite decide_False; [done | intros [? _]; congruence]. }
    split.
    { rewrite Hins1. cbn [inserts_of map fst snd].
      by rewrite (take_inserts_of_one i1 _ (map _ g)). }
    split; [done|]. split; [done|]. split; [|done].
    intros Hall.
    destruct Hhit1 as [Hcalls1 Hcache1].
    { apply Hall. unfold od_keys. rewrite fmap_cons. by left. }
    split; [|done].
    rewrite Hcalls1 in Hins1. rewrite inserts_app in Hins1.
    apply app_inv_head in Hins1.
    destruct i1 as [|[|i1]]; [done | done | lia].
Qed.

(** *** [push] on an active outlet, through the decorator *)

Lemma begun_nothing (name : string) (rest : odict (list pyval)) :
  default [] (od_get name (begun 0 rest)) = [].
Proof.
  destruct rest as [|[k docs] rest]; [done|]. simpl.
  by destruct (decide (name = k)).
Qed.

Lemma group_by_collection_ext (o o' : MongoOutlet) (records : list record) :
  collection o' = collection o ->
  _group_by_collection o' records = _group_by_collection o records.
Proof.
  intros Hc. unfold _group_by_collection.
  assert (Hstep : forall d r, group_record o' d r = group_record o d r).
  { intros d r. unfold group_record. by rewrite Hc. }
  generalize (@nil (string * list pyval)).
  induction records as [|r rs IH]; intros d; simpl; [done|].
  by rewrite Hstep, IH.
Qed.

Lemma push_active_run (records : list record) (update : string) (st : state) :
  active (self st) = true ->
  let db := target_database (self st) in
  let g := _group_by_collection (self st) records in
  exists r st' done rest j n,
    push fault kept records update st = (r, st') /\
    g = done ++ rest /\
    (forall db' name,
       documents (mongo st') db' name =
         if decide (db' = db)
         then documents (mongo st) db' name ++
              default [] (od_get name (done ++ begun j rest))
         else documents (mongo st) db' name) /\
    inserts (calls st') = inserts (calls st) ++ take n (inserts_of db g) /\
    ((forall k, k ∈ od_keys g -> k ∈ _collections (self st)) ->
     round_trips (calls st') =
       round_trips (calls st) ++ take n (inserts_of db g) /\
     _collections (self st') = _collections (self st) /\
     (is_Some (_db (self st)) ->
      calls st' = calls st ++ take n (inserts_of db g))) /\
    match r with
    | Return _ =>
        rest = [] /\
        take n (inserts_of db g) = inserts_of db g /\
        _db (self st') = Some {| db_name := db |} /\
        forall k, k ∈ od_keys g ->
          k ∈ _collections (self st') /\
          is_Some (collections_of (mongo st') db !! k)
    | Raise e => exists what, e = DriverError what
    end.
Proof.
  intros Hact db g. subst db g.
  set (db := target_database (self st)).
  set (g := _group_by_collection (self st) records).
  destruct (push_enters records update st)
    as [(st1 & -> & Hm & Hrt & Hcache & Hact1 & Hcoll & Hdb & Hsame)
       |(what & st1 & -> & _ & Hnone & Hm & Hrt & Hcache & _)].
  - rewrite Hact in Hact1. rewrite push_body_active by done.
    rewrite (group_by_collection_ext _ _ records Hcoll). fold g.
    assert (Hnd : NoDup (od_keys g)).
    { apply fold_group_NoDup. constructor. }
    destruct (for_each_push_run g st1 _ Hdb Hnd)
      as (r & st' & done & rest & j & n & Hrun & Hdb' & Hsplit & Hdocs &
          Hins & _ & _ & Hwarm & Hr).
    cbn [db_name] in *. fold db in Hdb, Hdb'.
    exists r, st', done, rest, j, n.
    split; [done|]. split; [done|]. split.
    { intros db' name. by rewrite Hdocs, Hm. }
    split.
    { by rewrite Hins, <- (inserts_round_trips (calls st1)), Hrt,
        inserts_round_trips. }
    split.
    { intros Hall. destruct Hwarm as [Hcalls Hcache'].
      { intros k Hk. rewrite Hcache. by apply Hall. }
      split.
      { by rewrite Hcalls, round_trips_app, round_trips_take_inserts_of, Hrt. }
      split; [congruence|].
      intros Hconn. by rewrite <- (Hsame Hconn). }
    destruct r as [[]|e]; [|done].
    destruct Hr as (Hrest & Htake & Hkeys). done.
  - exists (Raise (DriverError what)), st1, [], g, 0, 0.
    split; [done|]. split; [done|]. split.
    { intros db' name. rewrite Hm. cbn [app]. rewrite begun_nothing.
      rewrite app_nil_r. by destruct (decide _). }
    rewrite take_0, !app_nil_r.
    split.
    { by rewrite <- (inserts_round_trips (calls st1)), Hrt,
        inserts_round_trips. }
    split; [|eauto].
    intros _. split; [done|]. split; [done|].
    intros Hconn. rewrite Hnone in Hconn. by destruct Hconn.
Qed.

End DriverFacts.

(** ** Errors of the driver are not swallowed *)

Section Propagation.

Variable fault : list call -> call -> option string.
Variable kept : list call -> call -> nat.

Local Abbreviation run_propagates := (MongoOutlet.run_propagates fault).
Local Abbreviation propagates := (MongoOutlet.propagates fault).

Lemma run_propagates_silent {A} (st : state) (r : result A) (st' : state) :
  calls st' = calls st -> run_propagates st (r, st').
Proof.
  intros Hcalls. exists []. split; [by rewrite app_nil_r|].
  intros pre c post e Hnew. by destruct pre.
Qed.

Lemma propagates_ret {A} (a : A) : propagates (ret a).
Proof. intros st. by apply run_propagates_silent. Qed.

Lemma propagates_raise {A} (e : exn) : propagates (@raise A e).
Proof. intros st. by apply run_propagates_silent. Qed.

Lemma propagates_get_self : propagates get_self.
Proof. intros st. by apply run_propagates_silent. Qed.

Lemma propagates_set_self (f : MongoOutlet -> MongoOutlet) :
  propagates (set_self f).
Proof. intros st. by apply run_propagates_silent. Qed.

(** One call: its fault, if any, is the outcome. *)
Lemma run_propagates_call {A} (st : state) (c : call) (out : result A * state) :
  calls (snd out) = calls st ++ [c] ->
  (forall e, fault (calls st) c = Some e -> fst out = Raise (DriverError e)) ->
  run_propagates st out.
Proof.
  intros Hcalls Hout. exists [c]. split; [done|].
  intros pre c' post e' Hnew Hf'.
  destruct pre as [|? [|? ?]]; simplify_eq/=.
  rewrite app_nil_r in Hf'. split; [by apply Hout | done].
Qed.

Lemma propagates_driver {A} (c : call)
    (answer : gmap string (gmap string (list pyval)) ->
              A * gmap string (gmap string (list pyval))) :
  propagates (driver fault c answer).
Proof.
  intros st. apply (run_propagates_call st c); unfold driver.
  - destruct (fault (calls st) c); [done|]. by destruct (answer (mongo st)).
  - by intros e ->.
Qed.

Lemma propagates_create_collection (d : Database) (name : string) :
  propagates (create_collection fault kept d name).
Proof.
  intros st.
  apply (run_propagates_call st (CreateCollection (db_name d) name));
    unfold create_collection.
  - by destruct (fault (calls st) _).
  - by intros e ->.
Qed.

Lemma propagates_insert_many (c : Collection) (docs : list pyval) :
  propagates (insert_many fault kept c docs).
Proof.
  intros st.
  apply (run_propagates_call st (InsertMany (coll_db c) (coll_name c) docs));
    unfold insert_many.
  - by destruct (fault (calls st) _).
  - by intros e ->.
Qed.

(** Sequencing two runs: a fault in the first ends it, so it can only be
    followed by the second when the first was clean. *)
Lemma run_propagates_seq {A B} (st st1 : state) (r1 : result A)
    (out : result B * state) :
  run_propagates st (r1, st1) ->
  (forall e, r1 <> Raise (DriverError e)) ->
  run_propagates st1 out ->
  run_propagates st out.
Proof.
  intros (new1 & Hc1 & Hf1) Hr1 (new2 & Hc2 & Hf2). simpl in *.
  exists (new1 ++ new2). split.
  { by rewrite Hc2, Hc1, app_assoc. }
  intros pre c post e Hnew Hf.
  apply app_eq_app in Hnew as [l [[-> Hnew]|[-> Hnew]]].
  - destruct l as [|c' l]; simpl in Hnew.
    + apply (Hf2 [] c post e); [done|].
      by rewrite Hc1, !app_nil_r.
    + injection Hnew as -> ->.
      destruct (Hf1 pre c' l e eq_refl Hf) as [Hr _].
      simpl in Hr. by destruct (Hr1 e).
  - apply (Hf2 l c post e); [done|]. by rewrite Hc1, <- app_assoc.
Qed.

Lemma run_propagates_raise {A B} (st st1 : state) (e : exn) :
  run_propagates st (@Raise A e, st1) -> run_propagates st (@Raise B e, st1).
Proof.
  intros (new & Hc & Hf). exists new. split; [done|].
  intros pre c post e' Hnew Hfault.
  destruct (Hf pre c post e' Hnew Hfault) as [Hr ->]. simpl in *.
  split; [congruence | done].
Qed.

Lemma propagates_bind {A B} (m : M A) (k : A -> M B) :
  propagates m -> (forall a, propagates (k a)) -> propagates (bind m k).
Proof.
  intros Hm Hk st. unfold bind. specialize (Hm st).
  destruct (m st) as [[a|e] st1]; [|by eapply run_propagates_raise].
  eapply run_propagates_seq; [exact Hm | done | apply Hk].
Qed.

Lemma propagates_try {A} (m handler : M A) :
  propagates m -> propagates handler ->
  propagates (try_except_not_found m handler).
Proof.
  intros Hm Hh st. unfold try_except_not_found. specialize (Hm st).
  destruct (m st) as [[a|[name| | |what]] st1]; try done.
  eapply run_propagates_seq; [exact Hm | done | apply Hh].
Qed.

Lemma propagates_for_each {A} (xs : list A) (body : A -> M unit) :
  (forall x, propagates (body x)) -> propagates (for_each xs body).
Proof.
  intros Hbody. induction xs as [|x xs IH]; simpl.
  - apply propagates_ret.
  - apply propagates_bind; [apply Hbody | intros _; apply IH].
Qed.

Ltac propagate :=
  repeat first
    [ apply propagates_ret | apply propagates_raise
    | apply propagates_get_self | apply propagates_set_self
    | apply propagates_driver
    | apply propagates_create_collection | apply propagates_insert_many
    | apply propagates_bind; [|intros ?]
    | apply propagates_try
    | match goal with
      | |- MongoOutlet.propagates _ (match ?x with _ => _ end) => destruct x
      end ].

Lemma propagates_disconnect : propagates disconnect.
Proof. unfold disconnect. propagate. Qed.

Lemma propagates_connect (name : option string) :
  propagates (connect fault name).
Proof.
  unfold connect, new_client, get_database.
  apply propagates_bind; [propagate|]. intros o.
  destruct (_client o), (_db o); try case_decide; propagate;
    apply propagates_disconnect.
Qed.

Lemma propagates_ensure_connection {A} (fn : M A) :
  propagates fn -> propagates (ensure_connection fault fn).
Proof.
  intros Hfn. unfold ensure_connection.
  apply propagates_bind; [propagate|]. intros o. destruct (_db o); [done|].
  apply propagates_bind; [apply propagates_connect | done].
Qed.

Lemma propagates_ensure_connection_async {A} (fn : M A) :
  propagates fn -> propagates (ensure_connection_async fault fn).
Proof.
  intros Hfn. unfold ensure_connection_async.
  apply propagates_bind; [propagate|]. intros o. destruct (_db o); [done|].
  apply propagates_bind; [apply propagates_connect | done].
Qed.

Lemma propagates_get_collection (name : string) :
  propagates (_get_collection fault name).
Proof. unfold _get_collection, list_collection_names. propagate. Qed.

Lemma propagates_add_collection (name : string) :
  propagates (_add_collection fault kept name).
Proof.
  unfold _add_collection. apply propagates_ensure_connection. propagate.
Qed.

Lemma propagates_push_collection (item : string * list pyval) :
  propagates (push_collection fault kept item).
Proof.
  destruct item as [name docs]. unfold push_collection.
  apply propagates_bind.
  - apply propagates_try; [apply propagates_get_collection|].
    apply propagates_bind; [apply propagates_add_collection|].
    intros _. apply propagates_get_collection.
  - intros c. propagate.
Qed.

Lemma propagates_push (records : list record) (update : string) :
  propagates (push fault kept records update).
Proof.
  unfold push. apply propagates_ensure_connection_async. unfold push_body.
  apply propagates_bind; [propagate|]. intros o.
  destruct (negb (active o)); [propagate|].
  apply propagates_for_each, propagates_push_collection.
Qed.

(** *** An exception of the driver comes from the last call *)

Local Abbreviation run_accounted := (MongoOutlet.run_accounted fault).
Local Abbreviation accounted := (MongoOutlet.accounted fault).

Lemma run_accounted_silent {A} (st : state) (r : result A) (st' : state) :
  calls st' = calls st ->
  (forall e, r <> Raise (DriverError e)) ->
  run_accounted st (r, st').
Proof.
  intros Hcalls Hr. exists []. split; [by rewrite app_nil_r|].
  intros e He. by destruct (Hr e).
Qed.

Lemma accounted_ret {A} (a : A) : accounted (ret a).
Proof. intros st. by apply run_accounted_silent. Qed.

Lemma accounted_get_self : accounted get_self.
Proof. intros st. by apply run_accounted_silent. Qed.

Lemma accounted_set_self (f : MongoOutlet -> MongoOutlet) :
  accounted (set_self f).
Proof. intros st. by apply run_accounted_silent. Qed.

Lemma accounted_raise {A} (e : exn) :
  (forall what, e <> DriverError what) -> accounted (@raise A e).
Proof.
  intros He st. apply run_accounted_silent; [done|].
  intros what [= ->]. by destruct (He what).
Qed.

Lemma run_accounted_call {A} (st : state) (c : call) (out : result A * state) :
  calls (snd out) = calls st ++ [c] ->
  (forall e, fst out = Raise (DriverError e) -> fault (calls st) c = Some e) ->
  run_accounted st out.
Proof.
  intros Hcalls Hout. exists [c]. split; [done|].
  intros e He. exists [], c. split; [done|].
  rewrite app_nil_r. by apply Hout.
Qed.

Lemma accounted_driver {A} (c : call)
    (answer : gmap string (gmap string (list pyval)) ->
              A * gmap string (gmap string (list pyval))) :
  accounted (driver fault c answer).
Proof.
  intros st. apply (run_accounted_call st c); unfold driver.
  - destruct (fault (calls st) c); [done|]. by destruct (answer (mongo st)).
  - intros e. destruct (fault (calls st) c); [by intros [= ->]|].
    by destruct (answer (mongo st)).
Qed.

Lemma accounted_create_collection (d : Database) (name : string) :
  accounted (create_collection fault kept d name).
Proof.
  intros st.
  apply (run_accounted_call st (CreateCollection (db_name d) name));
    unfold create_collection.
  - by destruct (fault (calls st) _).
  - intros e. destruct (fault (calls st) _); [by intros [= ->] | done].
Qed.

Lemma accounted_insert_many (c : Collection) (docs : list pyval) :
  accounted (insert_many fault kept c docs).
Proof.
  intros st.
  apply (run_accounted_call st (InsertMany (coll_db c) (coll_name c) docs));
    unfold insert_many.
  - by destruct (fault (calls st) _).
  - intros e. destruct (fault (calls st) _); [by intros [= ->] | done].
Qed.

Lemma run_accounted_seq {A B} (st st1 : state) (r1 : result A)
    (out : result B * state) :
  run_accounted st (r1, st1) ->
  run_accounted st1 out ->
  run_accounted st out.
Proof.
  intros (new1 & Hc1 & _) (new2 & Hc2 & Hf2). simpl in *.
  exists (new1 ++ new2). split.
  { by rewrite Hc2, Hc1, app_assoc. }
  intros e He. destruct (Hf2 e He) as (pre & c & -> & Hf).
  exists (new1 ++ pre), c. split; [by rewrite app_assoc|].
  by rewrite app_assoc, <- Hc1.
Qed.

Lemma run_accounted_raise {A B} (st st1 : state) (e : exn) :
  run_accounted st (@Raise A e, st1) -> run_accounted st (@Raise B e, st1).
Proof.
  intros (new & Hc & Hf). exists new. split; [done|].
  intros e' He'. apply Hf. simpl in *. congruence.
Qed.

Lemma accounted_bind {A B} (m : M A) (k : A -> M B) :
  accounted m -> (forall a, accounted (k a)) -> accounted (bind m k).
Proof.
  intros Hm Hk st. unfold bind. specialize (Hm st).
  destruct (m st) as [[a|e] st1]; [|by eapply run_accounted_raise].
  eapply run_accounted_seq; [exact Hm | apply Hk].
Qed.

Lemma accounted_try {A} (m handler : M A) :
  accounted m -> accounted handler ->
  accounted (try_except_not_found m handler).
Proof.
  intros Hm Hh st. unfold try_except_not_found. specialize (Hm st).
  destruct (m st) as [[a|[name| | |what]] st1]; try done.
  eapply run_accounted_seq; [exact Hm | apply Hh].
Qed.

Lemma accounted_for_each {A} (xs : list A) (body : A -> M unit) :
  (forall x, accounted (body x)) -> accounted (for_each xs body).
Proof.
  intros Hbody. induction xs as [|x xs IH]; simpl.
  - apply accounted_ret.
  - apply accounted_bind; [apply Hbody | intros _; apply IH].
Qed.

Ltac account :=
  repeat first
    [ apply accounted_ret | apply accounted_raise; done
    | apply accounted_get_self | apply accounted_set_self
    | apply accounted_driver
    | apply accounted_create_collection | apply accounted_insert_many
    | apply accounted_bind; [|intros ?]
    | apply accounted_try
    | match goal with
      | |- MongoOutlet.accounted _ (match ?x with _ => _ end) => destruct x
      end ].

Lemma accounted_disconnect : accounted disconnect.
Proof. unfold disconnect. account. Qed.

Lemma accounted_connect (name : option string) :
  accounted (connect fault name).
Proof.
  unfold connect, new_client, get_database.
  apply accounted_bind; [account|]. intros o.
  destruct (_client o), (_db o); try case_decide; account;
    apply accounted_disconnect.
Qed.

Lemma accounted_ensure_connection {A} (fn : M A) :
  accounted fn -> accounted (ensure_connection fault fn).
Proof.
  intros Hfn. unfold ensure_connection.
  apply accounted_bind; [account|]. intros o. destruct (_db o); [done|].
  apply accounted_bind; [apply accounted_connect | done].
Qed.

Lemma accounted_ensure_connection_async {A} (fn : M A) :
  accounted fn -> accounted (ensure_connection_async fault fn).
Proof.
  intros Hfn. unfold ensure_connection_async.
  apply accounted_bind; [account|]. intros o. destruct (_db o); [done|].
  apply accounted_bind; [apply accounted_connect | done].
Qed.

Lemma accounted_get_collection (name : string) :
  accounted (_get_collection fault name).
Proof. unfold _get_collection, list_collection_names. account. Qed.

Lemma accounted_add_collection (name : string) :
  accounted (_add_collection fault kept name).
Proof.
  unfold _add_collection. apply accounted_ensure_connection. account.
Qed.

Lemma accounted_push_collection (item : string * list pyval) :
  accounted (push_collection fault kept item).
Proof.
  destruct item as [name docs]. unfold push_collection.
  apply accounted_bind.
  - apply accounted_try; [apply accounted_get_collection|].
    apply accounted_bind; [apply accounted_add_collection|].
    intros _. apply accounted_get_collection.
  - intros c. account.
Qed.

Lemma accounted_push (records : list record) (update : string) :
  accounted (push fault kept records update).
Proof.
  unfold push. apply accounted_ensure_connection_async. unfold push_body.
  apply accounted_bind; [account|]. intros o.
  destruct (negb (active o)); [account|].
  apply accounted_for_each, accounted_push_collection.
Qed.

End Propagation.

Example sample_groups :
  _group_by_collection sample_outlet mixed_records =
    [ ("default_collection",
       [PyDict [("a", PyInt 1)]; PyDict [("b", PyInt 4)]]);
      ("x", [PyInt 2; PyList [PyInt 3]; PyInt 7]) ].
Proof. vm_compute. reflexivity. Qed.

Example sample_push_calls :
  calls (snd (push pymongo_checks keep_none sample_records "run"
                sample_state)) =
    [ NewClient None None; GetDatabase "databay";
      ListCollectionNames "databay";
      CreateCollection "databay" "default_collection";
      ListCollectionNames "databay";
      InsertMany "databay" "default_collection"
        [PyDict [("a", PyInt 1)]; PyDict [("b", PyInt 4)]];
      ListCollectionNames "databay";
      CreateCollection "databay" "x";
      ListCollectionNames "databay";
      InsertMany "databay" "x"
        [PyDict [("c", PyInt 2)]; PyDict [("d", PyInt 3)];
         PyDict [("e", PyInt 7)]] ].
Proof. vm_compute. reflexivity. Qed.

(** ** Routing of payloads *)

(** What the server holds of a group when the loop has stopped is an
    initial part of the group. *)
Lemma written_part_of_group (o : MongoOutlet) (records : list record)
    (done rest : odict (list pyval)) (j : nat) (name : string) :
  _group_by_collection o records = done ++ rest ->
  exists n,
    default [] (od_get name (done ++ begun j rest)) =
      take n (grouped (collection o) name records).
Proof.
  intros Hsplit.
  pose proof (group_by_collection_default o records name) as Hgroup.
  rewrite Hsplit, od_get_app in Hgroup. rewrite od_get_app.
  destruct (od_get name done) as [v|] eqn:Hdone; simpl in *.
  { exists (length v). by rewrite <- Hgroup, firstn_all. }
  destruct rest as [|[k docs] rest]; simpl in *.
  { by exists 0. }
  destruct (decide (name = k)) as [->|Hne]; simpl in *.
  - exists j. by rewrite <- Hgroup.
  - by exists 0.
Qed.

(** C6, as stated, fails when a call to pymongo raises before a payload
    is reached: a record that carries an empty list makes the insert of
    its group raise, and the document of the record after it, meant for
    ["x"], is never written. *)
Lemma push_stops_at_a_rejected_group :
  active (self sample_state) = true /\
  grouped (collection (self sample_state)) "x" hollow_records =
    [PyDict [("a", PyInt 1)]] /\
  fst (push pymongo_checks keep_none hollow_records "run" sample_state) =
    Raise (DriverError "TypeError") /\
  documents
    (mongo (snd (push pymongo_checks keep_none hollow_records "run"
                   sample_state)))
    "databay" "x" = [].
Proof. repeat split; vm_compute; reflexivity. Qed.

(** C6, amended: while the outlet is active, every run of [push] that
    returns normally leaves each collection of the target database with
    what it held followed by the payloads of the records meant for it,
    where a record is meant for the collection named by its
    ['mongodb_collection'] metadata key if it has one and for the
    outlet's default collection otherwise, and leaves every other
    database alone; [push] returns normally exactly when none of the
    calls it makes to pymongo raises; and in every run, also one that
    raises, each collection of the target database holds what it held
    followed by an initial part of the payloads meant for it, the other
    databases being as they were. *)
Theorem push_writes_each_payload_to_its_collection
    (fault : list call -> call -> option string)
    (kept : list call -> call -> nat)
    (records : list record) (update : string) (st : state) :
  active (self st) = true ->
  (fst (push fault kept records update st) = Return tt ->
   forall db name,
     documents (mongo (snd (push fault kept records update st))) db name =
       if decide (db = target_database (self st))
       then documents (mongo st) db name ++
            grouped (collection (self st)) name records
       else documents (mongo st) db name) /\
  (exists new,
     calls (snd (push fault kept records update st)) = calls st ++ new /\
     (fst (push fault kept records update st) = Return tt <->
      forall pre c post,
        new = pre ++ c :: post -> fault (calls st ++ pre) c = None)) /\
  (forall db name, exists n,
     documents (mongo (snd (push fault kept records update st))) db name =
       if decide (db = target_database (self st))
       then documents (mongo st) db name ++
            take n (grouped (collection (self st)) name records)
       else documents (mongo st) db name).
Proof.
  intros Hact.
  pose proof (propagates_push fault kept records update st) as Hprop.
  pose proof (accounted_push fault kept records update st) as Hacc.
  destruct (push_active_run fault kept records update st Hact)
    as (r & st' & done & rest & j & n & Hrun & Hsplit & Hdocs & _ & _ & Hr).
  rewrite Hrun in *. cbn [fst snd] in *. split; [|split].
  - intros ->. destruct Hr as (-> & _). intros db name.
    rewrite Hdocs. simpl. rewrite <- Hsplit.
    by rewrite group_by_collection_default.
  - destruct Hprop as (new & Hcalls & Hfirst).
    destruct Hacc as (new' & Hcalls' & Hlast). cbn [fst snd] in *.
    assert (new' = new) as ->.
    { apply (app_inv_head (calls st)). congruence. }
    exists new. split; [done|]. split.
    + intros -> pre c post Hnew.
      destruct (fault (calls st ++ pre) c) as [e|] eqn:Hf; [|done].
      by destruct (Hfirst pre c post e Hnew Hf).
    + intros Hclean. destruct r as [[]|e]; [done|].
      destruct Hr as [what ->].
      destruct (Hlast what eq_refl) as (pre & c & -> & Hf).
      by rewrite (Hclean pre c [] eq_refl) in Hf.
  - intros db name.
    destruct (written_part_of_group (self st) records done rest j name Hsplit)
      as [n' Hpart].
    exists n'. by rewrite Hdocs, Hpart.
Qed.

Lemma push_writes_each_payload_to_its_collection_witness :
  documents
    (mongo (snd (push pymongo_checks keep_none sample_records "run"
                   sample_state)))
    "databay" "x"
    = [PyDict [("c", PyInt 2)]; PyDict [("d", PyInt 3)];
       PyDict [("e", PyInt 7)]] /\
  documents
    (mongo (snd (push pymongo_checks keep_none sample_records "run"
                   sample_state)))
    "databay" "default_collection"
    = [PyDict [("a", PyInt 1)]; PyDict [("b", PyInt 4)]].
Proof.
  destruct (push_writes_each_payload_to_its_collection
              pymongo_checks keep_none sample_records "run" sample_state
              eq_refl) as (Hdocs & _).
  assert (Hret : fst (push pymongo_checks keep_none sample_records "run"
                        sample_state) = Return tt)
    by (vm_compute; reflexivity).
  rewrite !(Hdocs Hret). split; vm_compute; reflexivity.
Defined.

(** ** An inactive outlet *)

(** C8, as stated, fails on a disconnected outlet whose configuration
    pymongo rejects: the decorator of [push] connects before the
    [active] flag is looked at, so [push] on an inactive outlet raises
    instead of returning. *)
Lemma push_inactive_raises_when_connect_does :
  active (self misnamed_state) = false /\
  _db (self misnamed_state) = None /\
  fst (push pymongo_checks keep_none sample_records "run" misnamed_state) =
    Raise (DriverError "InvalidName").
Proof. repeat split; vm_compute; reflexivity. Qed.

(** C8, amended: while the outlet's active flag is false, the body of
    [push] returns at once and leaves the whole state as it was; [push]
    itself makes no round trip to the server and leaves every collection
    with its contents; on a connected outlet it returns normally with
    the state unchanged, and on a disconnected one it does what
    [on_start] does: it returns once [connect] has returned and raises
    what [connect] raises. *)
Theorem push_inactive_writes_nothing
    (fault : list call -> call -> option string)
    (kept : list call -> call -> nat)
    (records : list record) (update : string) (st : state) :
  active (self st) = false ->
  push_body fault kept records update st = (Return tt, st) /\
  mongo (snd (push fault kept records update st)) = mongo st /\
  round_trips (calls (snd (push fault kept records update st))) =
    round_trips (calls st) /\
  (is_Some (_db (self st)) ->
   push fault kept records update st = (Return tt, st)) /\
  (_db (self st) = None ->
   push fault kept records update st = on_start fault st) /\
  (forall e, fst (push fault kept records update st) = Raise e ->
   _db (self st) = None /\ fst (connect fault None st) = Raise e).
Proof.
  intros Hact. split; [by apply push_body_inactive|].
  rewrite push_run.
  destruct (_db (self st)) as [d|] eqn:Hdb.
  { rewrite push_body_inactive by done. cbn [fst snd].
    repeat split; try done. }
  pose proof (connect_facts fault None st) as (Hm & Hrt & _ & Hact1 & _).
  unfold on_start, bind, ret. cbn zeta in *.
  destruct (connect fault None st) as [[b|e] st1]; cbn [fst snd] in *.
  - rewrite push_body_inactive by congruence. cbn [fst snd].
    by repeat split.
  - split; [done|]. split; [done|]. split; [by intros [? ?]|].
    split; [done|]. intros e' [= ->]. done.
Qed.

Lemma push_inactive_writes_nothing_witness :
  mongo (snd (push pymongo_checks keep_none sample_records "run" idle_state)) =
    mongo idle_state.
Proof.
  apply (push_inactive_writes_nothing pymongo_checks keep_none
           sample_records "run" idle_state).
  reflexivity.
Defined.

(** ** Connecting before the body runs *)

(** C9, as stated, fails when [connect] raises: the constructor
    annotates [port] as a string, pymongo wants an integer, so on an
    outlet built with a string port the decorator's [connect] raises
    when it builds the client, [push] raises with it, and neither
    [_client] nor [_db] is set; the body of [push] has not run. *)
Lemma push_stays_disconnected_when_connect_raises :
  _db (self misported_state) = None /\
  push pymongo_checks keep_none sample_records "run" misported_state =
    (Raise (DriverError "TypeError"),
     logged (NewClient None (Some (PyStr "27017"))) misported_state) /\
  _client (self (snd (push pymongo_checks keep_none sample_records "run"
                        misported_state))) = None /\
  _db (self (snd (push pymongo_checks keep_none sample_records "run"
                    misported_state))) = None.
Proof. repeat split; vm_compute; reflexivity. Qed.

(** C9, amended: when [push] is called on a disconnected outlet ([_db]
    is [None]), the wrapper first calls [connect]. If neither the
    construction of the client nor the lookup of the outlet's own
    database on it raises, [connect] sets [_client] and [_db], touches
    nothing on the server, and only then does the body of [push] run,
    in the connected state; this happens also when the outlet is
    inactive, in which case [push] returns with the outlet connected
    and nothing written. If one of the two raises, [push] raises the
    same exception without running its body, [_db] is still [None], and
    [_client] is set only when it was the database lookup that
    raised. *)
Theorem push_connects_before_body
    (fault : list call -> call -> option string)
    (kept : list call -> call -> nat)
    (records : list record) (update : string) (st : state) :
  _db (self st) = None ->
  let c1 := NewClient (host (self st)) (port (self st)) in
  let c2 := GetDatabase (database_name (self st)) in
  let client :=
    {| client_host := host (self st); client_port := port (self st) |} in
  let st1 :=
    logged c2 (logged c1
      (with_self (connected_to (database_name (self st)) (self st)) st)) in
  (fault (calls st) c1 = None ->
   fault (calls st ++ [c1]) c2 = None ->
   connect fault None st = (Return false, st1) /\
   _client (self st1) = Some client /\
   _db (self st1) = Some {| db_name := database_name (self st) |} /\
   mongo st1 = mongo st /\
   push fault kept records update st =
     push_body fault kept records update st1 /\
   (active (self st) = false ->
    push fault kept records update st = (Return tt, st1))) /\
  (forall e,
     fault (calls st) c1 = Some e ->
     push fault kept records update st =
       (Raise (DriverError e), logged c1 st)) /\
  (forall e,
     fault (calls st) c1 = None ->
     fault (calls st ++ [c1]) c2 = Some e ->
     push fault kept records update st =
       (Raise (DriverError e),
        logged c2 (logged c1
          (with_self (set_client (Some client) (self st)) st)))).
Proof.
  intros Hdb c1 c2 client st1. subst c1 c2 client st1.
  rewrite push_run, Hdb. rewrite (connect_run fault None st).
  assert (Hconn : connected_with (database_name (self st)) (self st) = false).
  { unfold connected_with. rewrite Hdb. by destruct (_client (self st)). }
  assert (Hrel : released (self st) = self st).
  { unfold released. rewrite Hdb. by destruct (_client (self st)). }
  cbn zeta. cbn [default]. rewrite Hconn, Hrel.
  assert (Hself : with_self (self st) st = st) by by destruct st.
  rewrite Hself.
  split; [|split].
  - intros -> ->. repeat split.
    intros Hact. by rewrite push_body_inactive.
  - by intros e ->.
  - by intros e -> ->.
Qed.

Lemma push_connects_before_body_witness :
  _db (self (snd (push pymongo_checks keep_none sample_records "run"
                    idle_state))) =
    Some {| db_name := "databay" |}.
Proof.
  destruct (push_connects_before_body pymongo_checks keep_none
              sample_records "run" idle_state eq_refl) as (H & _).
  destruct (H eq_refl eq_refl) as (_ & _ & Hdb & _ & _ & Hpush).
  rewrite (Hpush eq_refl). exact Hdb.
Defined.

(** ** A collection that does not exist *)

Section Retry.

Variable fault : list call -> call -> option string.
Variable kept : list call -> call -> nat.

(** What a failed lookup tells: the name was not cached, the outlet was
    connected, the listing went through and did not have the name. *)
Lemma get_collection_not_found (st st1 : state) (name name' : string) :
  _get_collection fault name st = (Raise (MongoCollectionNotFound name'), st1) ->
  exists d,
    name' = name /\
    _db (self st) = Some d /\
    (name ∉ _collections (self st)) /\
    fault (calls st) (ListCollectionNames (db_name d)) = None /\
    collections_of (mongo st) (db_name d) !! name = None /\
    st1 = {| self := set_collections
                       (map_to_list (collections_of (mongo st) (db_name d))).*1
                       (self st);
             mongo := mongo st;
             calls := calls st ++ [ListCollectionNames (db_name d)] |}.
Proof.
  destruct st as [o m l].
  unfold _get_collection, bind, get_self. simpl.
  destruct (bool_decide (name ∈ _collections o)) eqn:Hcache; simpl.
  { destruct (_db o); intros; simplify_eq. }
  destruct (_db o) as [d|] eqn:Hdb; simpl; [|intros; simplify_eq].
  unfold list_collection_names, driver. simpl.
  destruct (fault l (ListCollectionNames (db_name d))) eqn:Hf; simpl;
    [intros; simplify_eq|].
  destruct (bool_decide (name ∈ (map_to_list _).*1)) eqn:Hnames; simpl.
  { rewrite Hdb. intros; simplify_eq. }
  intros Heq. simplify_eq. exists d.
  apply bool_decide_eq_false in Hcache, Hnames.
  rewrite elem_of_collection_names in Hnames.
  apply eq_None_not_Some in Hnames. done.
Qed.

Lemma push_collection_not_found (st st1 : state) (name : string)
    (docs : list pyval) :
  _get_collection fault name st = (Raise (MongoCollectionNotFound name), st1) ->
  exists d k,
    _db (self st) = Some d /\
    2 <= k <= 4 /\
    calls (snd (push_collection fault kept (name, docs) st)) =
      calls st ++ take k (retry_calls (db_name d) name docs) /\
    (fst (push_collection fault kept (name, docs) st) = Return tt ->
     k = 4 /\
     documents (mongo (snd (push_collection fault kept (name, docs) st)))
               (db_name d) name = docs) /\
    ((forall h c, fault h c = None) ->
     fst (push_collection fault kept (name, docs) st) = Return tt).
Proof.
  intros Hget.
  destruct (get_collection_not_found st st1 name name Hget)
    as (d & _ & Hdb & Hcache & Hlist & Hnone & ->).
  exists d.
  assert (Hrun : push_collection fault kept (name, docs) st =
    match (_add_collection fault kept name ;; _get_collection fault name)
            {| self := set_collections
                         (map_to_list (collections_of (mongo st) (db_name d))).*1
                         (self st);
               mongo := mongo st;
               calls := calls st ++ [ListCollectionNames (db_name d)] |}
    with
    | (Return c, st') => insert_many fault kept c docs st'
    | (Raise e, st') => (Raise e, st')
    end).
  { unfold push_collection, try_except_not_found, bind at 1.
    by rewrite Hget. }
  rewrite Hrun. clear Hrun Hget.
  destruct st as [o m l]. simpl in *.
  unfold _add_collection, ensure_connection, bind, get_self. simpl.
  rewrite Hdb. simpl. rewrite Hdb.
  unfold create_collection. simpl.
  destruct (fault (l ++ _) (CreateCollection _ _)) eqn:Hcreate; simpl.
  { exists 2. split; [done|]. split; [lia|].
    split; [rewrite <- ?app_assoc; reflexivity|]. split; [done|].
    intros Hnf. by rewrite Hnf in Hcreate. }
  unfold _get_collection, bind, get_self. simpl.
  rewrite bool_decide_eq_false_2; last first.
  { rewrite elem_of_collection_names. by rewrite Hnone. }
  simpl. rewrite Hdb. unfold list_collection_names, driver. simpl.
  destruct (fault ((l ++ _) ++ _) (ListCollectionNames _)) eqn:Hlist2; simpl.
  { exists 3. split; [done|]. split; [lia|].
    split; [rewrite <- ?app_assoc; reflexivity|]. split; [done|].
    intros Hnf. by rewrite Hnf in Hlist2. }
  rewrite bool_decide_eq_true_2; last first.
  { apply elem_of_collection_names, collections_of_created. by left. }
  simpl. rewrite Hdb. unfold insert_many. simpl.
  exists 4.
  destruct (fault (((l ++ _) ++ _) ++ _) (InsertMany _ _ _)) eqn:Hins; simpl.
  { split; [done|]. split; [lia|].
    split; [rewrite <- ?app_assoc; reflexivity|]. split; [done|].
    intros Hnf. by rewrite Hnf in Hins. }
  split; [done|]. split; [lia|].
  split; [rewrite <- ?app_assoc; reflexivity|]. split; [|done].
  intros _. split; [done|].
  rewrite documents_written, decide_True by done.
  rewrite documents_created. unfold documents. by rewrite Hnone.
Qed.

(** The [except] clause names [MongoCollectionNotFound] only. *)
Lemma push_collection_other_error (st st1 : state) (name : string)
    (docs : list pyval) (e : exn) :
  _get_collection fault name st = (Raise e, st1) ->
  (forall n, e <> MongoCollectionNotFound n) ->
  push_collection fault kept (name, docs) st = (Raise e, st1).
Proof.
  intros Hget Hne.
  unfold push_collection, try_except_not_found, bind at 1. rewrite Hget.
  destruct e as [n| | |what]; try done. by destruct (Hne n).
Qed.

End Retry.

(** C7: when the lookup of a group's collection raises
    [MongoCollectionNotFound], the loop body goes on with the creation of
    that collection, then one more lookup, then the insert, and with
    nothing else: the calls it makes are the first two, three or four of
    listing, creation, listing, insert, all four whenever it returns
    normally (the collection then holds exactly the group), which it does
    when no call faults. An exception of the first lookup other than
    [MongoCollectionNotFound] is the outcome of the loop body as it is,
    and in any run of [push] the first driver call that faults is the
    last call made and its exception is what [push] raises. *)
Theorem push_creates_missing_collection_and_retries_once
    (fault : list call -> call -> option string)
    (kept : list call -> call -> nat)
    (st st1 : state) (name : string) (docs : list pyval) (e : exn)
    (records : list record) (update : string) :
  (_get_collection fault name st = (Raise (MongoCollectionNotFound name), st1) ->
   exists d k,
     _db (self st) = Some d /\
     2 <= k <= 4 /\
     calls (snd (push_collection fault kept (name, docs) st)) =
       calls st ++ take k (retry_calls (db_name d) name docs) /\
     (fst (push_collection fault kept (name, docs) st) = Return tt ->
      k = 4 /\
      documents (mongo (snd (push_collection fault kept (name, docs) st)))
                (db_name d) name = docs) /\
     ((forall h c, fault h c = None) ->
      fst (push_collection fault kept (name, docs) st) = Return tt)) /\
  (_get_collection fault name st = (Raise e, st1) ->
   (forall n, e <> MongoCollectionNotFound n) ->
   push_collection fault kept (name, docs) st = (Raise e, st1)) /\
  (exists new,
     calls (snd (push fault kept records update st)) = calls st ++ new /\
     forall pre c post what,
       new = pre ++ c :: post ->
       fault (calls st ++ pre) c = Some what ->
       fst (push fault kept records update st) = Raise (DriverError what) /\
       post = []).
Proof.
  split; [apply push_collection_not_found|].
  split; [apply push_collection_other_error|].
  apply propagates_push.
Qed.

Lemma push_creates_missing_collection_and_retries_once_witness :
  (exists d k,
     _db (self connected_state) = Some d /\
     2 <= k <= 4 /\
     calls (snd (push_collection pymongo_checks keep_none
                   ("x", [PyDict [("n", PyInt 1)]]) connected_state)) =
       calls connected_state ++
       take k (retry_calls (db_name d) "x" [PyDict [("n", PyInt 1)]]) /\
     (fst (push_collection pymongo_checks keep_none
             ("x", [PyDict [("n", PyInt 1)]]) connected_state) = Return tt ->
      k = 4 /\
      documents
        (mongo (snd (push_collection pymongo_checks keep_none
                       ("x", [PyDict [("n", PyInt 1)]]) connected_state)))
        (db_name d) "x" = [PyDict [("n", PyInt 1)]])) /\
  fst (push pymongo_checks keep_none hollow_records "run" connected_state) =
    Raise (DriverError "TypeError").
Proof.
  split.
  - destruct (push_creates_missing_collection_and_retries_once
                pymongo_checks keep_none connected_state
                (snd (_get_collection pymongo_checks "x" connected_state))
                "x" [PyDict [("n", PyInt 1)]] TypeError [] "run")
      as (H & _).
    destruct (H eq_refl) as (d & k & Hd & Hk & Hcalls & Hret & _).
    exists d, k. exact (conj Hd (conj Hk (conj Hcalls Hret))).
  - destruct (push_creates_missing_collection_and_retries_once
                pymongo_checks keep_none connected_state connected_state
                "x" [] TypeError hollow_records "run")
      as (_ & _ & new & Hcalls & Hfault).
    apply (Hfault
             [ ListCollectionNames "databay";
               CreateCollection "databay" "default_collection";
               ListCollectionNames "databay" ]
             (InsertMany "databay" "default_collection" [])
             []).
    + apply (app_inv_head (calls connected_state)). rewrite <- Hcalls.
      vm_compute. reflexivity.
    + reflexivity.
Defined.

(** ** Grouping *)

(** C10: the group of a collection name is the in-order concatenation of
    what the records meant for that name contribute, a list payload
    contributing its elements one by one and any other payload itself (a
    name no record is meant for has no group); hence every element of a
    group is either an element of some record's list payload or a whole
    payload that is not a list: a list payload is never put in a group as
    one nested element. *)
Theorem group_is_spliced_concatenation
    (o : MongoOutlet) (records : list record) (name : string) :
  od_get name (_group_by_collection o records) =
    (if decide (filter (fun r => destination (collection o) r = name)
                       records = [])
     then None
     else Some (grouped (collection o) name records)) /\
  forall group x,
    od_get name (_group_by_collection o records) = Some group ->
    x ∈ group ->
    exists r,
      r ∈ records /\ destination (collection o) r = name /\
      ((exists items, payload r = PyList items /\ x ∈ items) \/
       (is_list (payload r) = false /\ x = payload r)).
Proof.
  assert (Hget : od_get name (_group_by_collection o records) =
    (if decide (filter (fun r => destination (collection o) r = name)
                       records = [])
     then None
     else Some (grouped (collection o) name records))).
  { unfold _group_by_collection. rewrite fold_group_get. simpl.
    by destruct (decide _). }
  split; [exact Hget|].
  intros group x Hgroup Hx. rewrite Hget in Hgroup.
  destruct (decide _) as [|_]; [done|].
  injection Hgroup as <-.
  apply elem_of_grouped in Hx as (r & Hr & Hdest & Hx).
  exists r. split; [done|]. split; [done|].
  destruct (payload r) eqn:Hp; simpl in Hx;
    try (right; split; [done|];
         apply list_elem_of_singleton in Hx; by subst x).
  left. eauto.
Qed.

(** ** What no method changes *)

Section Preserves.

Variable fault : list call -> call -> option string.
Variable kept : list call -> call -> nat.
Variable R : MongoOutlet -> MongoOutlet -> Prop.
Hypothesis R_refl : forall o, R o o.
Hypothesis R_trans : forall o1 o2 o3, R o1 o2 -> R o2 o3 -> R o1 o3.

Local Abbreviation preserves := (MongoOutlet.preserves R).

Lemma preserves_ret {A} (a : A) : preserves (ret a).
Proof. intros st. apply R_refl. Qed.

Lemma preserves_raise {A} (e : exn) : preserves (@raise A e).
Proof. intros st. apply R_refl. Qed.

Lemma preserves_get_self : preserves get_self.
Proof. intros st. apply R_refl. Qed.

Lemma preserves_set_self (f : MongoOutlet -> MongoOutlet) :
  (forall o, R o (f o)) -> preserves (set_self f).
Proof. intros Hf st. apply Hf. Qed.

Lemma preserves_driver {A} (c : call)
    (answer : gmap string (gmap string (list pyval)) ->
              A * gmap string (gmap string (list pyval))) :
  preserves (driver fault c answer).
Proof.
  intros st. unfold driver. destruct (fault (calls st) c); [apply R_refl|].
  destruct (answer (mongo st)). apply R_refl.
Qed.

Lemma preserves_create_collection (d : Database) (name : string) :
  preserves (create_collection fault kept d name).
Proof.
  intros st. unfold create_collection.
  destruct (fault (calls st) _); apply R_refl.
Qed.

Lemma preserves_insert_many (c : Collection) (docs : list pyval) :
  preserves (insert_many fault kept c docs).
Proof.
  intros st. unfold insert_many.
  destruct (fault (calls st) _); apply R_refl.
Qed.

Lemma preserves_bind {A B} (m : M A) (k : A -> M B) :
  preserves m -> (forall a, preserves (k a)) -> preserves (bind m k).
Proof.
  intros Hm Hk st. unfold bind. specialize (Hm st).
  destruct (m st) as [[a|e] st1]; [|done].
  eapply R_trans; [exact Hm | apply Hk].
Qed.

Lemma preserves_try {A} (m handler : M A) :
  preserves m -> preserves handler ->
  preserves (try_except_not_found m handler).
Proof.
  intros Hm Hh st. unfold try_except_not_found. specialize (Hm st).
  destruct (m st) as [[a|[name| | |what]] st1]; try done.
  eapply R_trans; [exact Hm | apply Hh].
Qed.

Lemma preserves_for_each {A} (xs : list A) (body : A -> M unit) :
  (forall x, preserves (body x)) -> preserves (for_each xs body).
Proof.
  intros Hbody. induction xs as [|x xs IH]; simpl.
  - apply preserves_ret.
  - apply preserves_bind; [apply Hbody | intros _; apply IH].
Qed.

Hypothesis R_client : forall c o, R o (set_client c o).
Hypothesis R_db : forall d o, R o (set_db d o).
Hypothesis R_collections : forall l o, R o (set_collections l o).

Ltac preserve :=
  repeat first
    [ apply preserves_ret | apply preserves_raise
    | apply preserves_get_self
    | apply preserves_set_self; first [apply R_client | apply R_db
                                      | apply R_collections]
    | apply preserves_driver
    | apply preserves_create_collection | apply preserves_insert_many
    | apply preserves_bind; [|intros ?]
    | apply preserves_try
    | match goal with
      | |- MongoOutlet.preserves R (match ?x with _ => _ end) => destruct x
      end ].

Lemma preserves_disconnect : preserves disconnect.
Proof. unfold disconnect. preserve. Qed.

Lemma preserves_connect (name : option string) :
  preserves (connect fault name).
Proof.
  unfold connect, new_client, get_database.
  apply preserves_bind; [preserve|]. intros o.
  destruct (_client o), (_db o); try case_decide; preserve;
    apply preserves_disconnect.
Qed.

Lemma preserves_ensure_connection {A} (fn : M A) :
  preserves fn -> preserves (ensure_connection fault fn).
Proof.
  intros Hfn. unfold ensure_connection.
  apply preserves_bind; [preserve|]. intros o. destruct (_db o); [done|].
  apply preserves_bind; [apply preserves_connect | done].
Qed.

Lemma preserves_ensure_connection_async {A} (fn : M A) :
  preserves fn -> preserves (ensure_connection_async fault fn).
Proof.
  intros Hfn. unfold ensure_connection_async.
  apply preserves_bind; [preserve|]. intros o. destruct (_db o); [done|].
  apply preserves_bind; [apply preserves_connect | done].
Qed.

Lemma preserves_get_collection (name : string) :
  preserves (_get_collection fault name).
Proof. unfold _get_collection, list_collection_names. preserve. Qed.

Lemma preserves_add_collection (name : string) :
  preserves (_add_collection fault kept name).
Proof.
  unfold _add_collection. apply preserves_ensure_connection. preserve.
Qed.

Lemma preserves_push_collection (item : string * list pyval) :
  preserves (push_collection fault kept item).
Proof.
  destruct item as [name docs]. unfold push_collection.
  apply preserves_bind.
  - apply preserves_try; [apply preserves_get_collection|].
    apply preserves_bind; [apply preserves_add_collection|].
    intros _. apply preserves_get_collection.
  - intros c. preserve.
Qed.

Lemma preserves_push (records : list record) (update : string) :
  preserves (push fault kept records update).
Proof.
  unfold push. apply preserves_ensure_connection_async. unfold push_body.
  apply preserves_bind; [preserve|]. intros o.
  destruct (negb (active o)); [preserve|].
  apply preserves_for_each, preserves_push_collection.
Qed.

End Preserves.

Lemma same_config_refl (o : MongoOutlet) : same_config o o.
Proof. by repeat split. Qed.

Lemma same_config_trans (o1 o2 o3 : MongoOutlet) :
  same_config o1 o2 -> same_config o2 o3 -> same_config o1 o3.
Proof.
  intros (? & ? & ? & ? & ?) (? & ? & ? & ? & ?).
  repeat split; congruence.
Qed.

Lemma push_same_config (fault : list call -> call -> option string)
    (kept : list call -> call -> nat)
    (records : list record) (update : string) (st : state) :
  same_config (self st) (self (snd (push fault kept records update st))).
Proof.
  apply preserves_push;
    [apply same_config_refl | apply same_config_trans | ..];
    intros; by repeat split.
Qed.

Lemma connect_same_config (fault : list call -> call -> option string)
    (name : option string) (st : state) :
  same_config (self st) (self (snd (connect fault name st))).
Proof.
  apply preserves_connect;
    [apply same_config_refl | apply same_config_trans | ..];
    intros; by repeat split.
Qed.

(** ** [connect], [disconnect] and the lifecycle hooks *)

(** X1: [connect(name)], with the outlet's own [database_name] standing
    for a missing [name], returns [True] and changes nothing when the
    outlet already holds a client and that database. In every other
    case it first drops the connection it holds to another database,
    then builds a client and takes the database from it: when both go
    through it returns [False] and leaves the outlet with the fresh
    client and that database; when building the client raises, the
    exception is the outcome and the outlet holds no more than it held;
    when taking the database raises, the exception is the outcome and
    the outlet holds the fresh client and no database. *)
Theorem connect_returns_whether_connected
    (fault : list call -> call -> option string)
    (name : option string) (st : state) :
  let n := default (database_name (self st)) name in
  let c1 := NewClient (host (self st)) (port (self st)) in
  let c2 := GetDatabase n in
  let client :=
    {| client_host := host (self st); client_port := port (self st) |} in
  (connected_with n (self st) = true ->
   connect fault name st = (Return true, st)) /\
  (connected_with n (self st) = false ->
   (fault (calls st) c1 = None ->
    fault (calls st ++ [c1]) c2 = None ->
    connect fault name st =
      (Return false,
       logged c2 (logged c1 (with_self (connected_to n (self st)) st)))) /\
   (forall e,
      fault (calls st) c1 = Some e ->
      connect fault name st =
        (Raise (DriverError e),
         logged c1 (with_self (released (self st)) st))) /\
   (forall e,
      fault (calls st) c1 = None ->
      fault (calls st ++ [c1]) c2 = Some e ->
      connect fault name st =
        (Raise (DriverError e),
         logged c2 (logged c1
           (with_self (set_client (Some client) (released (self st)))
                      st))))).
Proof.
  intros n c1 c2 client. subst n c1 c2 client. rewrite connect_run.
  cbn zeta. split.
  - by intros ->.
  - intros ->. split; [|split].
    + by intros -> ->.
    + by intros e ->.
    + by intros e -> ->.
Qed.

Lemma connect_returns_whether_connected_witness :
  connect pymongo_checks None connected_state = (Return true, connected_state) /\
  connect pymongo_checks (Some "a b") connected_state =
    (Raise (DriverError "InvalidName"),
     logged (GetDatabase "a b") (logged (NewClient None None)
       (with_self
          (set_client (Some {| client_host := None; client_port := None |})
                      sample_outlet)
          connected_state))).
Proof.
  split.
  - apply (connect_returns_whether_connected pymongo_checks None
             connected_state).
    reflexivity.
  - destruct (connect_returns_whether_connected pymongo_checks (Some "a b")
                connected_state) as (_ & H).
    destruct (H eq_refl) as (_ & _ & Hdatabase).
    apply (Hdatabase "InvalidName"); reflexivity.
Defined.

(** X2: [disconnect] always returns with the outlet holding neither
    client nor database; it never calls the server and keeps the
    configuration and the cache of collection names; disconnecting an
    outlet that is already disconnected changes nothing. *)
Theorem disconnect_clears_client_and_database (st : state) :
  disconnect st = (Return tt, with_self (disconnected (self st)) st) /\
  _client (self (snd (disconnect st))) = None /\
  _db (self (snd (disconnect st))) = None /\
  _collections (self (snd (disconnect st))) = _collections (self st) /\
  same_config (self st) (self (snd (disconnect st))) /\
  disconnect (snd (disconnect st)) = (Return tt, snd (disconnect st)).
Proof.
  rewrite !disconnect_run. repeat split.
Qed.

(** X3: on an outlet that holds neither client nor database,
    [on_shutdown] undoes what [on_start] has done to the outlet, whether
    [on_start] returned or raised: the outlet object is again what it
    was, and the server has not been touched. When neither the
    construction of the client nor the lookup of the database raises,
    the two hooks in sequence return normally and the state is the one
    they started from, but for the two calls in the log. *)
Theorem on_start_then_on_shutdown_restores
    (fault : list call -> call -> option string) (st : state) :
  _client (self st) = None ->
  _db (self st) = None ->
  let c1 := NewClient (host (self st)) (port (self st)) in
  let c2 := GetDatabase (database_name (self st)) in
  self (snd (on_shutdown (snd (on_start fault st)))) = self st /\
  mongo (snd (on_shutdown (snd (on_start fault st)))) = mongo st /\
  (fault (calls st) c1 = None ->
   fault (calls st ++ [c1]) c2 = None ->
   (on_start fault ;; on_shutdown) st = (Return tt, logged c2 (logged c1 st))).
Proof.
  intros Hc Hd c1 c2. subst c1 c2.
  assert (Hconn : connected_with (database_name (self st)) (self st) = false).
  { unfold connected_with. by rewrite Hc. }
  assert (Hrel : released (self st) = self st).
  { unfold released. by rewrite Hc. }
  assert (Hidle : disconnected (self st) = self st /\
                  (forall c, disconnected (set_client c (self st)) = self st) /\
                  (forall n, disconnected (connected_to n (self st)) = self st)).
  { destruct (self st). simpl in *. by subst. }
  destruct Hidle as (Hidle & Hidle_client & Hidle_db).
  assert (Hstart : on_start fault st =
    match connect fault None st with
    | (Return _, st1) => (Return tt, st1)
    | (Raise e, st1) => (Raise e, st1)
    end).
  { unfold on_start, bind, ret. by destruct (connect fault None st) as [[]]. }
  assert (Hseq : (on_start fault ;; on_shutdown) st =
    match on_start fault st with
    | (Return _, st1) => disconnect st1
    | (Raise e, st1) => (Raise e, st1)
    end) by reflexivity.
  rewrite Hseq, Hstart. unfold on_shutdown. clear Hseq Hstart.
  rewrite (connect_run fault None st). cbn zeta. cbn [default].
  rewrite Hconn, Hrel.
  destruct (fault (calls st) _) as [e|].
  { rewrite disconnect_run. cbn [fst snd logged with_self self mongo].
    by rewrite Hidle. }
  destruct (fault (calls st ++ _) _) as [e|].
  { rewrite disconnect_run. cbn [fst snd logged with_self self mongo].
    by rewrite Hidle_client. }
  rewrite disconnect_run. cbn [fst snd logged with_self self mongo calls].
  rewrite Hidle_db. split; [done|]. split; [done|].
  intros _ _. rewrite disconnect_run.
  cbn [logged with_self self mongo calls]. by rewrite Hidle_db.
Qed.

Lemma on_start_then_on_shutdown_restores_witness :
  (on_start pymongo_checks ;; on_shutdown) idle_state =
    (Return tt,
     logged (GetDatabase "databay") (logged (NewClient None None) idle_state)).
Proof.
  apply (on_start_then_on_shutdown_restores pymongo_checks idle_state);
    reflexivity.
Defined.

(** X4: connecting to a named database does not change the database the
    outlet is configured with: after [connect(other)], whatever its
    outcome, and [disconnect], the outlet holds neither client nor
    database and its [database_name] is what it was, so the decorator of
    [push] asks for the outlet's own [database_name] again, and, if
    pymongo grants it, [push] runs its body connected to it. *)
Theorem reconnect_uses_configured_database
    (fault : list call -> call -> option string)
    (kept : list call -> call -> nat)
    (other : string) (records : list record) (update : string) (st : state) :
  let st' := snd (disconnect (snd (connect fault (Some other) st))) in
  let c1 := NewClient (host (self st)) (port (self st)) in
  let c2 := GetDatabase (database_name (self st)) in
  _client (self st') = None /\
  _db (self st') = None /\
  database_name (self st') = database_name (self st) /\
  (fault (calls st') c1 = None ->
   fault (calls st' ++ [c1]) c2 = None ->
   push fault kept records update st' =
     push_body fault kept records update
       (logged c2 (logged c1
          (with_self (connected_to (database_name (self st)) (self st'))
                     st')))).
Proof.
  intros st' c1 c2. subst st' c1 c2. rewrite disconnect_run. cbn [snd].
  set (st1 := snd (connect fault (Some other) st)).
  pose proof (connect_same_config fault (Some other) st)
    as (_ & Hhost & Hport & Hname & _). fold st1 in Hhost, Hport, Hname.
  split; [done|]. split; [done|]. split; [done|].
  set (st' := with_self (disconnected (self st1)) st1).
  intros Hf1 Hf2. rewrite push_run. cbn [st' with_self self disconnected _db].
  rewrite (connect_run fault None st'). cbn zeta. cbn [default].
  cbn [st' with_self self calls disconnected host port database_name
       connected_with released _client _db] in *.
  rewrite Hhost, Hport, Hname, Hf1, Hf2.
  unfold connected_to. cbn [with_self self disconnected host port
    database_name active collection _collections].
  by rewrite Hhost, Hport, Hname.
Qed.

Lemma reconnect_uses_configured_database_witness :
  fst (push pymongo_checks keep_none sample_records "run"
         (snd (disconnect
                 (snd (connect pymongo_checks (Some "other") sample_state)))))
    = Return tt /\
  documents
    (mongo (snd (push pymongo_checks keep_none sample_records "run"
                   (snd (disconnect
                           (snd (connect pymongo_checks (Some "other")
                                   sample_state)))))))
    "other" "x" = [].
Proof.
  destruct (reconnect_uses_configured_database pymongo_checks keep_none
              "other" sample_records "run" sample_state)
    as (_ & _ & _ & Hpush).
  rewrite (Hpush eq_refl eq_refl). split; vm_compute; reflexivity.
Defined.

(** ** [_get_collection] and [_add_collection] on their own *)

Section Lookup.

Variable fault : list call -> call -> option string.

Lemma get_collection_cached (st : state) (d : Database) (name : string) :
  name ∈ _collections (self st) ->
  _db (self st) = Some d ->
  _get_collection fault name st =
    (Return {| coll_db := db_name d; coll_name := name |}, st).
Proof.
  intros Hin Hdb. destruct st as [o m l]. simpl in *.
  unfold _get_collection, bind, get_self. simpl.
  rewrite bool_decide_eq_true_2 by done. simpl. by rewrite Hdb.
Qed.

Lemma get_collection_uncached (st : state) (d : Database) (name : string) :
  name ∉ _collections (self st) ->
  _db (self st) = Some d ->
  _get_collection fault name st =
    match fault (calls st) (ListCollectionNames (db_name d)) with
    | Some e =>
        (Raise (DriverError e), logged (ListCollectionNames (db_name d)) st)
    | None =>
        let names := (map_to_list (collections_of (mongo st) (db_name d))).*1 in
        (if bool_decide (name ∈ names)
         then Return {| coll_db := db_name d; coll_name := name |}
         else Raise (MongoCollectionNotFound name),
         with_self (set_collections names (self st))
                   (logged (ListCollectionNames (db_name d)) st))
    end.
Proof.
  intros Hin Hdb. destruct st as [o m l]. simpl in *.
  unfold _get_collection, bind, get_self. simpl.
  rewrite bool_decide_eq_false_2 by done. simpl. rewrite Hdb.
  unfold list_collection_names, driver. simpl.
  destruct (fault l _); [done|]. simpl.
  destruct (bool_decide (name ∈ _)); simpl; [by rewrite Hdb | done].
Qed.

Lemma get_collection_disconnected (st : state) (name : string) :
  _db (self st) = None ->
  _get_collection fault name st =
    (Raise (if bool_decide (name ∈ _collections (self st))
            then TypeError else AttributeError), st).
Proof.
  intros Hdb. destruct st as [o m l]. simpl in *.
  unfold _get_collection, bind, get_self. simpl.
  destruct (bool_decide (name ∈ _collections o)); simpl; by rewrite Hdb.
Qed.

End Lookup.

(** X5: a lookup of a name the cache does not hold asks the server for
    its collection names once and, unless that call raises, replaces the
    cache by the answer, whether or not the name is in it: the lookup then
    returns the handle if the collection exists and raises
    [MongoCollectionNotFound] if it does not. If the call raises, the
    exception is the outcome and the cache is as it was. *)
Theorem get_collection_miss_refreshes_cache
    (fault : list call -> call -> option string)
    (st : state) (d : Database) (name : string) :
  name ∉ _collections (self st) ->
  _db (self st) = Some d ->
  let c := ListCollectionNames (db_name d) in
  let names := (map_to_list (collections_of (mongo st) (db_name d))).*1 in
  (fault (calls st) c = None ->
   snd (_get_collection fault name st) =
     with_self (set_collections names (self st)) (logged c st) /\
   (is_Some (collections_of (mongo st) (db_name d) !! name) ->
    fst (_get_collection fault name st) =
      Return {| coll_db := db_name d; coll_name := name |}) /\
   (collections_of (mongo st) (db_name d) !! name = None ->
    fst (_get_collection fault name st) =
      Raise (MongoCollectionNotFound name))) /\
  (forall e, fault (calls st) c = Some e ->
   _get_collection fault name st = (Raise (DriverError e), logged c st)).
Proof.
  intros Hin Hdb c names. subst c names.
  rewrite (get_collection_uncached fault st d name Hin Hdb). split.
  - intros ->. cbn zeta. cbn [fst snd]. split; [done|]. split.
    + intros Hsome. rewrite bool_decide_eq_true_2; [done|].
      by apply elem_of_collection_names.
    + intros Hnone. rewrite bool_decide_eq_false_2; [done|].
      rewrite elem_of_collection_names, Hnone. by intros [? ?].
  - by intros e ->.
Qed.

Lemma get_collection_miss_refreshes_cache_witness :
  _get_collection pymongo_checks "y" stocked_state =
    (Raise (MongoCollectionNotFound "y"),
     with_self (set_collections ["x"] (self stocked_state))
               (logged (ListCollectionNames "databay") stocked_state)).
Proof.
  destruct (get_collection_miss_refreshes_cache
              pymongo_checks stocked_state {| db_name := "databay" |} "y")
    as [H _].
  - vm_compute. by intros H%list_elem_of_In.
  - reflexivity.
  - destruct (H eq_refl) as (Hst & _ & Hraise).
    rewrite (surjective_pairing (_get_collection pymongo_checks "y" stocked_state)).
    rewrite Hst, Hraise; [|reflexivity]. reflexivity.
Defined.

(** X6: a lookup that has returned a handle is answered from the cache
    from then on: the same lookup in the state it left returns the same
    handle, changes nothing and makes no call to the server. *)
Theorem get_collection_again_is_cached
    (fault : list call -> call -> option string)
    (st st1 : state) (name : string) (c : Collection) :
  _get_collection fault name st = (Return c, st1) ->
  _get_collection fault name st1 = (Return c, st1).
Proof.
  intros Hget.
  destruct (_db (self st)) as [d|] eqn:Hdb; last first.
  { by rewrite (get_collection_disconnected fault st name Hdb) in Hget. }
  destruct (decide (name ∈ _collections (self st))) as [Hin|Hout].
  - rewrite (get_collection_cached fault st d name Hin Hdb) in Hget.
    simplify_eq. by apply get_collection_cached.
  - rewrite (get_collection_uncached fault st d name Hout Hdb) in Hget.
    destruct (fault (calls st) _); [simplify_eq|]. cbn zeta in Hget.
    destruct (bool_decide (name ∈ _)) eqn:Hnames; simplify_eq.
    apply bool_decide_eq_true in Hnames.
    by apply get_collection_cached.
Qed.

Lemma get_collection_again_is_cached_witness :
  _get_collection pymongo_checks "x"
      (snd (_get_collection pymongo_checks "x" stocked_state)) =
    (Return {| coll_db := "databay"; coll_name := "x" |},
     snd (_get_collection pymongo_checks "x" stocked_state)).
Proof.
  apply (get_collection_again_is_cached pymongo_checks stocked_state).
  reflexivity.
Defined.

(** X7: [_get_collection] is not decorated and never connects: on a
    disconnected outlet it raises, [AttributeError] when the name is not
    in the cache and [TypeError] when it is, without calling the server
    and without changing anything. *)
Theorem get_collection_disconnected_raises
    (fault : list call -> call -> option string)
    (st : state) (name : string) :
  _db (self st) = None ->
  _get_collection fault name st =
    (Raise (if bool_decide (name ∈ _collections (self st))
            then TypeError else AttributeError), st).
Proof.
  apply get_collection_disconnected.
Qed.

Lemma get_collection_disconnected_raises_witness :
  _get_collection pymongo_checks "x" idle_state = (Raise AttributeError, idle_state).
Proof.
  apply (get_collection_disconnected_raises pymongo_checks idle_state "x").
  reflexivity.
Defined.

(** X8: the cache of collection names is not tied to a database: once
    [connect(other)] has returned, a name that was in the cache is still
    taken to exist, so its lookup returns a handle into [other] without
    asking the server, whatever [other] holds. *)
Theorem get_collection_after_connect_trusts_cache
    (fault : list call -> call -> option string)
    (st st1 : state) (other name : string) (b : bool) :
  name ∈ _collections (self st) ->
  connect fault (Some other) st = (Return b, st1) ->
  _get_collection fault name st1 =
    (Return {| coll_db := other; coll_name := name |}, st1).
Proof.
  intros Hin Hconn.
  pose proof (connect_facts fault (Some other) st) as (_ & _ & Hcache & _ & _ & _ & Hout).
  cbn zeta in *. rewrite Hconn in *. cbn [fst snd default] in *.
  apply (get_collection_cached fault st1 {| db_name := other |});
    [by rewrite Hcache | done].
Qed.

Lemma get_collection_after_connect_trusts_cache_witness :
  collections_of (mongo cached_state) "other" !! "x" = None /\
  fst (_get_collection pymongo_checks "x"
         (snd (connect pymongo_checks (Some "other") cached_state)))
    = Return {| coll_db := "other"; coll_name := "x" |}.
Proof.
  split; [reflexivity|].
  rewrite (get_collection_after_connect_trusts_cache
             pymongo_checks cached_state
             (snd (connect pymongo_checks (Some "other") cached_state))
             "other" "x" false).
  - reflexivity.
  - vm_compute. apply list_elem_of_In. by left.
  - reflexivity.
Defined.

(** [_add_collection] through its decorator. *)
Lemma add_collection_run (fault : list call -> call -> option string)
    (kept : list call -> call -> nat) (name : string) (st : state) :
  _add_collection fault kept name st =
    match _db (self st) with
    | Some d => create_collection fault kept d name st
    | None =>
        match connect fault None st with
        | (Return _, st1) =>
            match _db (self st1) with
            | Some d => create_collection fault kept d name st1
            | None => (Raise AttributeError, st1)
            end
        | (Raise e, st1) => (Raise e, st1)
        end
    end.
Proof.
  unfold _add_collection, ensure_connection. unfold bind at 1, get_self.
  cbn [self]. destruct (_db (self st)) as [d|] eqn:Hdb.
  { unfold bind. by rewrite Hdb. }
  unfold bind at 1. destruct (connect fault None st) as [[b|e] st1]; [|done].
  unfold bind. by destruct (_db (self st1)).
Qed.

(** X9: [_add_collection] connects first if the outlet is disconnected;
    if [connect] raises, so does [_add_collection], with nothing asked
    of the server. Otherwise it asks the server once to create the
    collection, in the database the outlet holds (its own
    [database_name] if it had to connect), and does not put the name in
    the cache. If the call goes through, the collection exists; if it
    raises, the exception is the outcome; either way no collection has
    lost or gained a document. *)
Theorem add_collection_creates_in_connected_database
    (fault : list call -> call -> option string)
    (kept : list call -> call -> nat)
    (st : state) (name : string) :
  let db := target_database (self st) in
  let c := CreateCollection db name in
  let out := _add_collection fault kept name st in
  (forall st1,
     (is_Some (_db (self st)) /\ st1 = st) \/
     (_db (self st) = None /\
      exists b, connect fault None st = (Return b, st1)) ->
     calls (snd out) = calls st1 ++ [c] /\
     _db (self (snd out)) = Some {| db_name := db |} /\
     _collections (self (snd out)) = _collections (self st) /\
     (forall db' n,
        documents (mongo (snd out)) db' n = documents (mongo st) db' n) /\
     (fault (calls st1) c = None ->
      fst out = Return tt /\
      is_Some (collections_of (mongo (snd out)) db !! name)) /\
     (forall e, fault (calls st1) c = Some e ->
      fst out = Raise (DriverError e))) /\
  (forall e st1,
     _db (self st) = None ->
     connect fault None st = (Raise e, st1) ->
     out = (Raise e, st1)).
Proof.
  intros db c out. subst db c out. rewrite add_collection_run.
  unfold target_database.
  assert (Hcreate : forall (d : Database) (s : state),
    let c := CreateCollection (db_name d) name in
    let out := create_collection fault kept d name s in
    calls (snd out) = calls s ++ [c] /\
    self (snd out) = self s /\
    (forall db' n,
       documents (mongo (snd out)) db' n = documents (mongo s) db' n) /\
    (fault (calls s) c = None ->
     fst out = Return tt /\
     is_Some (collections_of (mongo (snd out)) (db_name d) !! name)) /\
    (forall e, fault (calls s) c = Some e -> fst out = Raise (DriverError e))).
  { intros d s. cbn zeta. unfold create_collection.
    destruct (fault (calls s) _) as [e|]; cbn [fst snd self mongo calls].
    - split; [done|]. split; [done|]. split.
      { intros db' n. destruct (decide _); [done | apply documents_created]. }
      split; [done|]. by intros e' [= ->].
    - split; [done|]. split; [done|].
      split; [intros db' n; apply documents_created|].
      split; [|done]. intros _. split; [done|].
      apply collections_of_created. by left. }
  destruct (_db (self st)) as [d|] eqn:Hdb.
  - split; [|done]. intros st1 [[_ ->]|[? _]]; [|done].
    destruct (Hcreate d st) as (Hcalls & Hself & Hdocs & Hok & Hfail).
    rewrite Hself, Hdb. by destruct d.
  - pose proof (connect_facts fault None st)
      as (Hm & _ & Hcache & _ & _ & _ & Hout).
    cbn zeta in *. cbn [default] in *. split.
    + intros st1 [[[? ?] _]|[_ [b Hconn]]]; [done|].
      rewrite Hconn in *. cbn [fst snd] in *. rewrite Hout.
      destruct (Hcreate {| db_name := database_name (self st) |} st1)
        as (Hcalls & Hself & Hdocs & Hok & Hfail).
      cbn [db_name] in *. rewrite Hself, Hout, Hcache.
      split; [done|]. split; [done|]. split; [done|]. split; [|done].
      intros db' n. by rewrite Hdocs, Hm.
    + intros e st1 _ Hconn. by rewrite Hconn.
Qed.

Lemma add_collection_creates_in_connected_database_witness :
  fst (_add_collection pymongo_checks keep_none "y" stocked_state) = Return tt /\
  documents
    (mongo (snd (_add_collection pymongo_checks keep_none "y" stocked_state)))
    "databay" "x" = [PyDict [("n", PyInt 1)]].
Proof.
  destruct (add_collection_creates_in_connected_database
              pymongo_checks keep_none stocked_state "y") as (H & _).
  destruct (H stocked_state) as (_ & _ & _ & Hdocs & Hok & _).
  - left. split; [by eexists | reflexivity].
  - split; [by apply Hok|]. rewrite Hdocs. reflexivity.
Defined.

(** ** More on [_group_by_collection] *)

Lemma group_record_keys (o : MongoOutlet) (d : odict (list pyval)) (r : record) :
  od_keys (group_record o d r) =
    if decide (destination (collection o) r ∈ od_keys d)
    then od_keys d
    else od_keys d ++ [destination (collection o) r].
Proof.
  unfold group_record. fold (destination (collection o) r).
  set (dest := destination (collection o) r).
  set (d' := if od_mem dest d then d else od_set dest [] d).
  assert (Hkeys : od_keys d' =
            if decide (dest ∈ od_keys d) then od_keys d
            else od_keys d ++ [dest]).
  { unfold d', od_mem. destruct (od_get dest d) eqn:Hget.
    - rewrite decide_True; [done|].
      destruct (decide (dest ∈ od_keys d)) as [|Hout]; [done|].
      apply od_get_None_keys in Hout. congruence.
    - rewrite od_keys_set. unfold od_mem. rewrite Hget.
      rewrite decide_False; [done|]. by apply od_get_None_keys. }
  assert (Hmem : od_mem dest d' = true).
  { unfold d', od_mem. destruct (od_get dest d) eqn:Hget.
    - by rewrite Hget.
    - by rewrite od_get_set_eq. }
  destruct (payload r); rewrite od_keys_set, Hmem; exact Hkeys.
Qed.

(** X10: the keys of the grouping are the destinations of the records,
    each once, in the order in which they first appear: a key is present
    exactly when some record is meant for it (also when all such records
    carry empty lists), and one more record at the end of the input
    leaves the keys as they are if its destination is among them and adds
    its destination as the last key otherwise. *)
Theorem group_keys_follow_first_appearance
    (o : MongoOutlet) (records : list record) (r : record) :
  NoDup (od_keys (_group_by_collection o records)) /\
  (forall k,
     k ∈ od_keys (_group_by_collection o records) <->
     exists r', r' ∈ records /\ destination (collection o) r' = k) /\
  od_keys (_group_by_collection o (records ++ [r])) =
    if decide (destination (collection o) r
                 ∈ od_keys (_group_by_collection o records))
    then od_keys (_group_by_collection o records)
    else od_keys (_group_by_collection o records)
           ++ [destination (collection o) r].
Proof.
  split; [apply fold_group_NoDup; constructor|]. split.
  - intros k.
    pose proof (fold_group_get o records [] k) as Hget. simpl in Hget.
    fold (_group_by_collection o records) in Hget.
    pose proof (od_get_None_keys k (_group_by_collection o records)) as Hnone.
    split.
    + intros Hin.
      destruct (filter _ records) as [|r' rest] eqn:Hfilter.
      { simpl in Hget. apply Hnone in Hget. by destruct Hget. }
      assert (Hr' : r' ∈ filter (fun r0 => destination (collection o) r0 = k)
                            records).
      { rewrite Hfilter. by left. }
      apply list_elem_of_filter in Hr' as [Hdest Hr']. eauto.
    + intros (r' & Hr' & Hdest).
      destruct (decide (k ∈ od_keys (_group_by_collection o records)))
        as [|Hout]; [done|].
      apply Hnone in Hout. rewrite Hout in Hget.
      destruct (decide (filter _ records = [])) as [Hnil|]; [|done].
      assert (Hin : r' ∈ filter (fun r0 => destination (collection o) r0 = k)
                            records).
      { by apply list_elem_of_filter. }
      rewrite Hnil in Hin. by apply not_elem_of_nil in Hin.
  - unfold _group_by_collection. rewrite fold_left_app. simpl.
    apply group_record_keys.
Qed.

Lemma od_values_set_present (k : string) (v x : list pyval)
    (d : odict (list pyval)) :
  od_get k d = Some v ->
  concat (od_values (od_set k (v ++ x) d)) ≡ₚ concat (od_values d) ++ x.
Proof.
  unfold od_values. induction d as [|[k' v'] d IH]; [done|].
  cbn [od_get od_set]. destruct (decide (k = k')) as [->|Hne].
  - intros [= ->]. rewrite !fmap_cons. simpl.
    rewrite <- !app_assoc. apply Permutation_app_head, Permutation_app_comm.
  - intros Hget. rewrite !fmap_cons. simpl. rewrite (IH Hget).
    by rewrite app_assoc.
Qed.

Lemma od_values_set_fresh (k : string) (d : odict (list pyval)) :
  od_get k d = None ->
  concat (od_values (od_set k [] d)) = concat (od_values d).
Proof.
  unfold od_values. induction d as [|[k' v'] d IH]; [done|].
  cbn [od_get od_set]. destruct (decide (k = k')) as [->|Hne]; [done|].
  intros Hget. rewrite !fmap_cons. simpl. by rewrite (IH Hget).
Qed.

Lemma group_record_values (o : MongoOutlet) (d : odict (list pyval))
    (r : record) :
  concat (od_values (group_record o d r)) ≡ₚ
    concat (od_values d) ++ contribution (payload r).
Proof.
  unfold group_record.
  set (dest := match metadata r !! "mongodb_collection" with
               | Some name => name
               | None => collection o
               end).
  set (d' := if od_mem dest d then d else od_set dest [] d).
  assert (Hd' : concat (od_values d') = concat (od_values d)).
  { unfold d', od_mem. destruct (od_get dest d) eqn:Hget; [done|].
    by apply od_values_set_fresh. }
  assert (Hget' : od_get dest d' = Some (default [] (od_get dest d'))).
  { unfold d', od_mem. destruct (od_get dest d) eqn:Hget.
    - by rewrite Hget.
    - by rewrite od_get_set_eq. }
  rewrite <- Hd'.
  destruct (payload r); by apply od_values_set_present.
Qed.

(** X11: grouping loses nothing and invents nothing: the groups, laid end
    to end, hold exactly the elements the records contribute (the
    elements of each list payload and each other payload itself), with
    the same multiplicities. *)
Theorem grouping_keeps_every_payload (o : MongoOutlet) (records : list record) :
  concat (od_values (_group_by_collection o records)) ≡ₚ
    concat (map (fun r => contribution (payload r)) records).
Proof.
  unfold _group_by_collection.
  assert (H : forall d,
    concat (od_values (fold_left (group_record o) records d)) ≡ₚ
      concat (od_values d) ++
      concat (map (fun r => contribution (payload r)) records)).
  { induction records as [|r rs IH]; intros d; simpl.
    - by rewrite app_nil_r.
    - rewrite IH, group_record_values. by rewrite app_assoc. }
  by rewrite H.
Qed.

(** X12: nothing the outlet does changes what it is configured with: in
    every run of [push], [connect], [disconnect], [_get_collection] and
    [_add_collection], whether it returns or raises, the outlet's
    [active] flag, [host], [port], [database_name] and default
    [collection] are afterwards what they were. *)
Theorem methods_keep_configuration
    (fault : list call -> call -> option string)
    (kept : list call -> call -> nat)
    (records : list record) (update : string)
    (database : option string) (name : string) (st : state) :
  same_config (self st) (self (snd (push fault kept records update st))) /\
  same_config (self st) (self (snd (connect fault database st))) /\
  same_config (self st) (self (snd (disconnect st))) /\
  same_config (self st) (self (snd (_get_collection fault name st))) /\
  same_config (self st) (self (snd (_add_collection fault kept name st))).
Proof.
  split; [apply push_same_config|].
  split; [apply connect_same_config|].
  split; [|split].
  - apply preserves_disconnect;
      [apply same_config_refl | apply same_config_trans | ..];
      intros; by repeat split.
  - apply preserves_get_collection;
      [apply same_config_refl | apply same_config_trans | ..];
      intros; by repeat split.
  - apply preserves_add_collection;
      [apply same_config_refl | apply same_config_trans | ..];
      intros; by repeat split.
Qed.

(** ** [push]: its calls, its cache, its partial writes *)

Lemma grouped_app (dflt name : string) (rs1 rs2 : list record) :
  grouped dflt name (rs1 ++ rs2) = grouped dflt name rs1 ++ grouped dflt name rs2.
Proof. unfold grouped. by rewrite filter_app, map_app, concat_app. Qed.

Lemma target_database_connected (o : MongoOutlet) (db : string) :
  _db o = Some {| db_name := db |} -> target_database o = db.
Proof. intros Hdb. unfold target_database. by rewrite Hdb. Qed.

(** X13: [push] on an active outlet issues its [insert_many] calls one
    per destination, in the order in which the destinations first appear
    among the records, each carrying the whole group of its collection,
    and stops after the first that raises: in every run the inserts it
    has issued are the first few of that sequence, and all of it when
    [push] returns normally. *)
Theorem push_inserts_once_per_group
    (fault : list call -> call -> option string)
    (kept : list call -> call -> nat)
    (records : list record) (update : string) (st : state) :
  active (self st) = true ->
  (exists n,
     inserts (calls (snd (push fault kept records update st))) =
       inserts (calls st) ++
       take n (inserts_of (target_database (self st))
                          (_group_by_collection (self st) records))) /\
  (fst (push fault kept records update st) = Return tt ->
   inserts (calls (snd (push fault kept records update st))) =
     inserts (calls st) ++
     inserts_of (target_database (self st))
                (_group_by_collection (self st) records)).
Proof.
  intros Hact.
  destruct (push_active_run fault kept records update st Hact)
    as (r & st' & done & rest & j & n & Hrun & _ & _ & Hins & _ & Hr).
  rewrite Hrun. cbn [fst snd]. split; [by exists n|].
  intros ->. destruct Hr as (_ & Htake & _). by rewrite Hins, Htake.
Qed.

Lemma push_inserts_once_per_group_witness :
  inserts (calls (snd (push pymongo_checks keep_none sample_records "run"
                         sample_state))) =
    [ InsertMany "databay" "default_collection"
        [PyDict [("a", PyInt 1)]; PyDict [("b", PyInt 4)]];
      InsertMany "databay" "x"
        [PyDict [("c", PyInt 2)]; PyDict [("d", PyInt 3)];
         PyDict [("e", PyInt 7)]] ].
Proof.
  destruct (push_inserts_once_per_group pymongo_checks keep_none
              sample_records "run" sample_state eq_refl) as [_ Hall].
  rewrite Hall; vm_compute; reflexivity.
Defined.

(** X14: when every destination is already in the cache of collection
    names, [push] on an active outlet asks the server nothing: its round
    trips are inserts alone, the first few of one per group and all of
    them when it returns normally, on a connected outlet these are all
    the calls it makes, and the cache is left as it was, whether or not
    the collections exist. *)
Theorem push_with_warm_cache_only_inserts
    (fault : list call -> call -> option string)
    (kept : list call -> call -> nat)
    (records : list record) (update : string) (st : state) :
  active (self st) = true ->
  (forall k, k ∈ od_keys (_group_by_collection (self st) records) ->
     k ∈ _collections (self st)) ->
  (exists n,
     round_trips (calls (snd (push fault kept records update st))) =
       round_trips (calls st) ++
       take n (inserts_of (target_database (self st))
                          (_group_by_collection (self st) records)) /\
     (is_Some (_db (self st)) ->
      calls (snd (push fault kept records update st)) =
        calls st ++
        take n (inserts_of (target_database (self st))
                           (_group_by_collection (self st) records))) /\
     (fst (push fault kept records update st) = Return tt ->
      take n (inserts_of (target_database (self st))
                         (_group_by_collection (self st) records)) =
        inserts_of (target_database (self st))
                   (_group_by_collection (self st) records))) /\
  _collections (self (snd (push fault kept records update st))) =
    _collections (self st).
Proof.
  intros Hact Hwarm.
  destruct (push_active_run fault kept records update st Hact)
    as (r & st' & done & rest & j & n & Hrun & _ & _ & _ & Hcalls & Hr).
  destruct (Hcalls Hwarm) as (Hrt & Hcache & Hconn).
  rewrite Hrun. cbn [fst snd]. split; [|done].
  exists n. split; [done|]. split; [done|].
  intros ->. by destruct Hr as (_ & Htake & _).
Qed.

Lemma push_with_warm_cache_only_inserts_witness :
  calls (snd (push pymongo_checks keep_none
                [ {| payload := PyDict [("e", PyInt 7)];
                     metadata := {["mongodb_collection" := "x"]} |} ]
                "run" cached_state)) =
    [ InsertMany "databay" "x" [PyDict [("e", PyInt 7)]] ].
Proof.
  destruct (push_with_warm_cache_only_inserts pymongo_checks keep_none
              [ {| payload := PyDict [("e", PyInt 7)];
                   metadata := {["mongodb_collection" := "x"]} |} ]
              "run" cached_state) as [(n & _ & Hcalls & Hall) _].
  - reflexivity.
  - intros k Hk. vm_compute in Hk. vm_compute.
    apply list_elem_of_In in Hk. by apply list_elem_of_In.
  - rewrite Hcalls, Hall.
    + vm_compute. reflexivity.
    + vm_compute. reflexivity.
    + by eexists.
Defined.

(** X15: a [push] that has returned normally leaves every destination in
    the cache, so a second [push] whose records go to destinations of
    the first asks the server nothing: its calls are inserts alone, the
    first few of one per group, and all of them when it returns
    normally. *)
Theorem second_push_only_inserts
    (fault : list call -> call -> option string)
    (kept : list call -> call -> nat)
    (records1 records2 : list record) (update1 update2 : string)
    (st : state) :
  active (self st) = true ->
  fst (push fault kept records1 update1 st) = Return tt ->
  (forall k, k ∈ od_keys (_group_by_collection (self st) records2) ->
     k ∈ od_keys (_group_by_collection (self st) records1)) ->
  let st1 := snd (push fault kept records1 update1 st) in
  (forall k, k ∈ od_keys (_group_by_collection (self st) records1) ->
     k ∈ _collections (self st1)) /\
  (exists n,
     calls (snd (push fault kept records2 update2 st1)) =
       calls st1 ++
       take n (inserts_of (target_database (self st))
                          (_group_by_collection (self st) records2))) /\
  (fst (push fault kept records2 update2 st1) = Return tt ->
   calls (snd (push fault kept records2 update2 st1)) =
     calls st1 ++
     inserts_of (target_database (self st))
                (_group_by_collection (self st) records2)).
Proof.
  intros Hact Hret Hsub st1. subst st1.
  pose proof (push_same_config fault kept records1 update1 st)
    as (Hact1 & _ & _ & _ & Hcoll1).
  destruct (push_active_run fault kept records1 update1 st Hact)
    as (r1 & st1 & done1 & rest1 & j1 & n1 & Hrun1 & _ & _ & _ & _ & Hr1).
  rewrite Hrun1 in *. cbn [fst snd] in *. subst r1.
  destruct Hr1 as (_ & _ & Hdb1 & Hkeys1).
  rewrite Hact in Hact1.
  split; [intros k Hk; by apply Hkeys1|].
  destruct (push_active_run fault kept records2 update2 st1 Hact1)
    as (r2 & st2 & done2 & rest2 & j2 & n2 & Hrun2 & _ & _ & _ & Hwarm & Hr2).
  rewrite Hrun2. cbn [fst snd].
  rewrite (target_database_connected _ _ Hdb1) in Hwarm, Hr2.
  rewrite (group_by_collection_ext _ _ records2 Hcoll1) in Hwarm, Hr2.
  destruct Hwarm as (_ & _ & Hcalls).
  { intros k Hk. by apply Hkeys1, Hsub. }
  rewrite Hcalls by (rewrite Hdb1; by eexists).
  split; [by exists n2|].
  intros ->. destruct Hr2 as (_ & Htake & _). by rewrite Htake.
Qed.

Lemma second_push_only_inserts_witness :
  calls (snd (push pymongo_checks keep_none more_records "second"
                (snd (push pymongo_checks keep_none sample_records "first"
                        sample_state)))) =
    calls (snd (push pymongo_checks keep_none sample_records "first"
                  sample_state)) ++
    [ InsertMany "databay" "x" [PyDict [("f", PyInt 8)]];
      InsertMany "databay" "default_collection" [PyDict [("g", PyInt 9)]] ].
Proof.
  destruct (second_push_only_inserts pymongo_checks keep_none
              sample_records more_records "first" "second" sample_state)
    as (_ & _ & Hcalls).
  - reflexivity.
  - vm_compute. reflexivity.
  - intros k Hk. vm_compute in Hk. vm_compute.
    apply list_elem_of_In in Hk. apply list_elem_of_In.
    simpl in *. tauto.
  - rewrite Hcalls; vm_compute; reflexivity.
Defined.

(** The documents a [push] that returns normally leaves. *)
Lemma push_returns_documents (fault : list call -> call -> option string)
    (kept : list call -> call -> nat)
    (records : list record) (update : string) (st : state) :
  active (self st) = true ->
  fst (push fault kept records update st) = Return tt ->
  _db (self (snd (push fault kept records update st))) =
    Some {| db_name := target_database (self st) |} /\
  forall db name,
    documents (mongo (snd (push fault kept records update st))) db name =
      if decide (db = target_database (self st))
      then documents (mongo st) db name ++
           grouped (collection (self st)) name records
      else documents (mongo st) db name.
Proof.
  intros Hact.
  destruct (push_active_run fault kept records update st Hact)
    as (r & st' & done & rest & j & n & Hrun & Hsplit & Hdocs & _ & _ & Hr).
  rewrite Hrun. cbn [fst snd]. intros ->.
  destruct Hr as (-> & _ & Hdb & _). split; [done|].
  intros db name. rewrite Hdocs. simpl. rewrite <- Hsplit.
  by rewrite group_by_collection_default.
Qed.

(** X16: pushing two batches one after the other on an active outlet
    leaves every collection of every database with the same documents,
    in the same order, as pushing the two batches as one list, whenever
    the pushes return normally. *)
Theorem push_twice_is_push_of_both
    (fault : list call -> call -> option string)
    (kept : list call -> call -> nat)
    (records1 records2 : list record) (update1 update2 update : string)
    (st : state) :
  active (self st) = true ->
  fst (push fault kept records1 update1 st) = Return tt ->
  fst (push fault kept records2 update2
         (snd (push fault kept records1 update1 st))) = Return tt ->
  fst (push fault kept (records1 ++ records2) update st) = Return tt ->
  forall db name,
    documents
      (mongo (snd (push fault kept records2 update2
                     (snd (push fault kept records1 update1 st))))) db name =
    documents
      (mongo (snd (push fault kept (records1 ++ records2) update st))) db name.
Proof.
  intros Hact Hret1 Hret2 Hret db name.
  pose proof (push_same_config fault kept records1 update1 st)
    as (Hact1 & _ & _ & _ & Hcoll1).
  rewrite Hact in Hact1.
  destruct (push_returns_documents fault kept records1 update1 st Hact Hret1)
    as [Hdb1 Hdocs1].
  destruct (push_returns_documents fault kept records2 update2 _ Hact1 Hret2)
    as [_ Hdocs2].
  destruct (push_returns_documents fault kept (records1 ++ records2) update
              st Hact Hret) as [_ Hdocs].
  rewrite Hdocs2, Hdocs, Hdocs1.
  rewrite (target_database_connected _ _ Hdb1), Hcoll1.
  destruct (decide (db = target_database (self st))); [|done].
  by rewrite grouped_app, app_assoc.
Qed.

Lemma push_twice_is_push_of_both_witness :
  documents
    (mongo (snd (push pymongo_checks keep_none more_records "second"
                   (snd (push pymongo_checks keep_none sample_records "first"
                           sample_state)))))
    "databay" "default_collection" =
  [ PyDict [("a", PyInt 1)]; PyDict [("b", PyInt 4)]; PyDict [("g", PyInt 9)] ].
Proof.
  rewrite (push_twice_is_push_of_both pymongo_checks keep_none
             sample_records more_records "first" "second" "both" sample_state);
    vm_compute; reflexivity.
Defined.

(** X17: [push] writes the groups in key order and stops at the first
    one that raises: in every run on an active outlet, whatever the
    driver does, the groups split into those written and those not, the
    written ones first; each written group has been appended to its
    collection of the target database, the first of the others may have
    had its first documents appended (an insert that raises keeps the
    documents stored before the one that failed), nothing else has
    changed, and a run that returns normally has written every group. *)
Theorem push_writes_a_prefix_of_the_groups
    (fault : list call -> call -> option string)
    (kept : list call -> call -> nat)
    (records : list record) (update : string) (st : state) :
  active (self st) = true ->
  exists done rest j,
    _group_by_collection (self st) records = done ++ rest /\
    (fst (push fault kept records update st) = Return tt -> rest = []) /\
    forall db name,
      documents (mongo (snd (push fault kept records update st))) db name =
        if decide (db = target_database (self st))
        then documents (mongo st) db name ++
             default [] (od_get name (done ++ begun j rest))
        else documents (mongo st) db name.
Proof.
  intros Hact.
  destruct (push_active_run fault kept records update st Hact)
    as (r & st' & done & rest & j & n & Hrun & Hsplit & Hdocs & _ & _ & Hr).
  exists done, rest, j. rewrite Hrun. cbn [fst snd].
  split; [done|]. split; [|done].
  intros ->. by destruct Hr.
Qed.

Lemma push_writes_a_prefix_of_the_groups_witness :
  (exists done rest j,
     _group_by_collection sample_outlet twin_records = done ++ rest /\
     (fst (push duplicate_key keep_fresh twin_records "run" sample_state)
        = Return tt ->
      rest = []) /\
     forall db name,
       documents (mongo (snd (push duplicate_key keep_fresh twin_records
                                "run" sample_state))) db name =
         if decide (db = target_database sample_outlet)
         then documents (mongo sample_state) db name
                ++ default [] (od_get name (done ++ begun j rest))
         else documents (mongo sample_state) db name) /\
  fst (push duplicate_key keep_fresh twin_records "run" sample_state) =
    Raise (DriverError "BulkWriteError") /\
  documents (mongo (snd (push duplicate_key keep_fresh twin_records "run"
                           sample_state)))
            "databay" "default_collection" =
    [PyDict [("_id", PyInt 1); ("v", PyInt 1)]].
Proof.
  split.
  - apply (push_writes_a_prefix_of_the_groups duplicate_key keep_fresh
             twin_records "run" sample_state).
    reflexivity.
  - split; vm_compute; reflexivity.
Defined.

(** X18: [push] of no record makes no round trip to the server and
    writes nothing, whatever the outlet's [active] flag: on a connected
    outlet it returns normally with the state unchanged, and on a
    disconnected one it does what [on_start] does, returning once
    [connect] has returned and raising what [connect] raises. *)
Theorem push_of_nothing_only_connects
    (fault : list call -> call -> option string)
    (kept : list call -> call -> nat)
    (update : string) (st : state) :
  push fault kept [] update st =
    match _db (self st) with
    | Some _ => (Return tt, st)
    | None => on_start fault st
    end /\
  mongo (snd (push fault kept [] update st)) = mongo st /\
  round_trips (calls (snd (push fault kept [] update st))) =
    round_trips (calls st).
Proof.
  assert (Hbody : forall s, push_body fault kept [] update s = (Return tt, s)).
  { intros s. unfold push_body, bind, get_self. by destruct (negb _). }
  rewrite push_run.
  destruct (_db (self st)) as [d|] eqn:Hdb; [by rewrite Hbody|].
  pose proof (connect_facts fault None st) as (Hm & Hrt & _).
  unfold on_start, bind, ret. cbn zeta in *.
  destruct (connect fault None st) as [[b|e] st1]; cbn [fst snd] in *.
  - by rewrite Hbody.
  - done.
Qed.

(** ** The exceptions [push] can raise *)

(** X19: [push] raises nothing of its own: in every run, whatever the
    outlet's state, the records and the driver, it either returns
    normally or raises an exception of the driver. In particular the
    [MongoCollectionNotFound] of a lookup never leaves [push], the second
    lookup finding what the creation has made. *)
Theorem push_raises_only_driver_errors
    (fault : list call -> call -> option string)
    (kept : list call -> call -> nat)
    (records : list record) (update : string) (st : state) :
  fst (push fault kept records update st) = Return tt \/
  exists what,
    fst (push fault kept records update st) = Raise (DriverError what).
Proof.
  destruct (push_enters fault kept records update st)
    as [(st1 & -> & _ & _ & _ & _ & _ & Hdb & _)
       |(what & st1 & -> & _)]; [|eauto].
  unfold push_body, bind, get_self.
  destruct (negb (active (self st1))); [by left|].
  assert (Hnd : NoDup (od_keys (_group_by_collection (self st1) records))).
  { apply fold_group_NoDup. constructor. }
  destruct (for_each_push_run fault kept _ st1 _ Hdb Hnd)
    as (r & st' & done & rest & j & n & Hrun & _ & _ & _ & _ & _ & _ & _ & Hr).
  rewrite Hrun. cbn [fst]. destruct r as [[]|e]; [by left|].
  destruct Hr as [what ->]. eauto.
Qed.

End MongoOutletSpec.

(* ===================================================================== *)
(** * Properties of the schedule planner *)
(* ===================================================================== *)

Module SchedulePlannerSpec.

Import SchedulePlanner.

Example add_fast_link : fst (add_links [fast_link] (test_planner true)) = Done.
Proof. reflexivity. Qed.

Example test_invalid_interval :
  add_links [short_link] (new_planner 200 true) =
    (Raised ScheduleIntervalError, new_planner 200 true).
Proof. reflexivity. Qed.

(** ** The validation rule *)

Lemma valid_interval_multiple (resolution i : nat) :
  valid_interval resolution i = true <->
  exists k, 0 < k /\ i = k * resolution.
Proof.
  unfold valid_interval.
  rewrite andb_true_iff, Nat.eqb_eq, Nat.leb_le. split.
  - intros [Hmod Hle]. destruct resolution as [|r].
    + simpl in Hmod. exists 1. lia.
    + exists (i / S r). pose proof (Nat.div_mod_eq i (S r)) as Hdiv.
      rewrite Hmod in Hdiv. split; [|lia].
      destruct (i / S r); lia.
  - intros (k & Hk & ->). split.
    + destruct resolution; [by rewrite Nat.mul_0_r | apply Nat.Div0.mod_mul].
    + nia.
Qed.

Lemma add_links_single (w : state) (l : Link) :
  add_links [l] w =
    if valid_interval (refresh_interval w) (interval l)
    then (Done, add_link w l)
    else (Raised ScheduleIntervalError, w).
Proof.
  unfold add_links. simpl. rewrite andb_true_r.
  by destruct (valid_interval _ _).
Qed.

Lemma remove_links_single (w : state) (l : Link) :
  remove_links [l] w =
    match links w !! l with
    | Some _ => (Done, set_links (delete l (links w)) (_unschedule l w))
    | None => (Raised MissingLinkError, w)
    end.
Proof. reflexivity. Qed.

(** ** What holds of every planner *)

Lemma add_link_consistent (w : state) (l : Link) :
  valid_interval (refresh_interval w) (interval l) = true ->
  consistent w -> consistent (add_link w l).
Proof.
  intros Hvalid (Hpool & Hjob & Hlinks). split; [done|]. split.
  - simpl. by rewrite Hjob.
  - intros l' j. simpl. rewrite lookup_insert.
    destruct (decide (l = l')) as [<-|_]; [done | apply Hlinks].
Qed.

Lemma foldl_add_link_consistent (ls : list Link) (w : state) :
  forallb (fun l => valid_interval (refresh_interval w) (interval l)) ls = true ->
  consistent w -> consistent (foldl add_link w ls).
Proof.
  revert w. induction ls as [|l ls IH]; intros w Hall Hw; [done|].
  simpl in Hall. apply andb_true_iff in Hall as [Hl Hall].
  simpl. apply IH; [done|]. by apply add_link_consistent.
Qed.

Lemma foldl_remove_link_consistent (ls : list Link) (acc : outcome * state) :
  consistent (snd acc) -> consistent (snd (foldl remove_link acc ls)).
Proof.
  revert acc. induction ls as [|l ls IH]; intros [r w] Hw; [done|].
  simpl. apply IH. simpl in Hw.
  destruct (links w !! l) as [j0|] eqn:Hl; [|done].
  destruct Hw as (Hpool & Hjob & Hlinks). split; [done|]. split.
  - simpl. by rewrite Hjob.
  - intros l' j. simpl. intros Hl'.
    apply lookup_delete_Some in Hl' as [_ Hl']. by eapply Hlinks.
Qed.

Section Reachable.

Variable raises : Link -> nat -> bool.

Lemma tick_consistent (w : state) : consistent w -> consistent (tick raises w).
Proof.
  intros (Hpool & Hjob & Hlinks). unfold tick. simpl.
  destruct (_running w) eqn:Hrun; [destruct (shutdown_requested w)|];
    (split; [simpl; first [done | congruence | auto] | by split]).
Qed.

Lemma step_consistent (w : state) (e : event) :
  consistent w -> consistent (step raises w e).
Proof.
  intros Hw. destruct e as [ls|ls| |wait|]; simpl.
  - unfold add_links. destruct (forallb _ ls) eqn:Hall; [|done].
    by apply foldl_add_link_consistent.
  - by apply (foldl_remove_link_consistent ls (Done, w)).
  - unfold start. destruct (_running w) eqn:Hrun; [done|].
    destruct Hw as (Hpool & Hjob & Hlinks). by split.
  - unfold shutdown. destruct (_running w) eqn:Hrun; [|done].
    destruct Hw as (Hpool & Hjob & Hlinks).
    destruct wait; split; done.
  - by apply tick_consistent.
Qed.

Lemma reachable_consistent (w : state) : reachable raises w -> consistent w.
Proof.
  induction 1 as [resolution catch|w e _ IH].
  - split; [done|]. split; [done|]. intros l j Hl. by simpl in Hl.
  - by apply step_consistent.
Qed.

End Reachable.

(** ** Registration *)

(** C1: [add_links] of one Link succeeds exactly when the Link's interval
    is a positive integer multiple of the planner's polling resolution
    (the resolution itself included), and then the Link is registered
    with a job binding in its slot; otherwise it raises
    [ScheduleIntervalError] and leaves the whole state as it was, so that
    no registration and no job binding is created, and in a planner
    reached from its construction the Link is then unregistered with an
    empty slot. *)
Theorem add_links_succeeds_iff_interval_is_multiple
    (raises : Link -> nat -> bool) (w : state) (l : Link) :
  (fst (add_links [l] w) = Done <->
   exists k, 0 < k /\ interval l = k * refresh_interval w) /\
  (fst (add_links [l] w) = Done ->
   is_Some (links (snd (add_links [l] w)) !! l) /\
   is_Some (job (snd (add_links [l] w)) !! l)) /\
  (fst (add_links [l] w) <> Done ->
   add_links [l] w = (Raised ScheduleIntervalError, w) /\
   (reachable raises w ->
    links (snd (add_links [l] w)) !! l = None /\
    job (snd (add_links [l] w)) !! l = None)).
Proof.
  rewrite add_links_single, <- valid_interval_multiple.
  destruct (valid_interval (refresh_interval w) (interval l)) eqn:Hvalid;
    simpl.
  - split; [done|]. split; [|done].
    intros _. rewrite !lookup_insert_eq. eauto.
  - split; [done|]. split; [done|]. intros _. split; [done|].
    intros Hreach.
    destruct (reachable_consistent raises w Hreach) as (_ & Hjob & Hlinks).
    rewrite Hjob. destruct (links w !! l) as [j|] eqn:Hl; [|done].
    apply Hlinks in Hl. congruence.
Qed.

Lemma add_links_succeeds_iff_interval_is_multiple_witness :
  add_links [short_link] (new_planner 200 true) =
    (Raised ScheduleIntervalError, new_planner 200 true) /\
  links (snd (add_links [short_link] (new_planner 200 true))) !! short_link
    = None.
Proof.
  destruct (add_links_succeeds_iff_interval_is_multiple
              always_raises (new_planner 200 true) short_link)
    as (_ & _ & H).
  destruct H as [Hsame Hunreg]; [discriminate|].
  split; [exact Hsame|]. apply Hunreg. constructor.
Defined.

(** C5: [remove_links] of a Link that is not registered raises
    [MissingLinkError] and leaves the whole state as it was: the managed
    set is unchanged, the Link is still unregistered, and its slot, if
    empty, is still empty. *)
Theorem remove_links_unregistered_raises (w : state) (l : Link) :
  links w !! l = None ->
  remove_links [l] w = (Raised MissingLinkError, w) /\
  links (snd (remove_links [l] w)) = links w /\
  links (snd (remove_links [l] w)) !! l = None /\
  (job w !! l = None -> job (snd (remove_links [l] w)) !! l = None).
Proof.
  intros Hl. rewrite remove_links_single, Hl. by simpl.
Qed.

Lemma remove_links_unregistered_raises_witness :
  remove_links [fast_link] (test_planner true) =
    (Raised MissingLinkError, test_planner true).
Proof.
  apply (remove_links_unregistered_raises (test_planner true) fast_link).
  reflexivity.
Defined.

(** C4: for a Link with a valid interval that is not yet registered,
    [add_links] followed by [remove_links] both succeed and return the
    planner's managed set to what it was: the Link is not registered, no
    trigger for it remains and its job-binding slot is empty; every
    other Link keeps its registration, trigger and slot; and the whole
    state is the one the two calls started from if the Link had no
    binding at the start. *)
Theorem add_then_remove_restores (w : state) (l : Link) :
  valid_interval (refresh_interval w) (interval l) = true ->
  links w !! l = None ->
  let w' := snd (remove_links [l] (snd (add_links [l] w))) in
  fst (add_links [l] w) = Done /\
  fst (remove_links [l] (snd (add_links [l] w))) = Done /\
  links w' = links w /\
  links w' !! l = None /\ next_run w' !! l = None /\ job w' !! l = None /\
  (forall l', l' <> l ->
     links w' !! l' = links w !! l' /\
     next_run w' !! l' = next_run w !! l' /\
     job w' !! l' = job w !! l') /\
  (next_run w !! l = None -> job w !! l = None -> w' = w).
Proof.
  intros Hvalid Hl w'. subst w'.
  rewrite add_links_single, Hvalid. cbn [fst snd].
  rewrite remove_links_single. cbn [add_link set_links _schedule links].
  rewrite lookup_insert_eq. cbn [fst snd].
  cbn [set_links _unschedule links job next_run].
  split; [done|]. split; [done|].
  split; [by rewrite delete_insert_eq, delete_id|].
  rewrite !lookup_delete_eq. split; [done|]. split; [done|]. split; [done|].
  split.
  { intros l' Hne. simpl.
    rewrite !lookup_delete_ne, !lookup_insert_ne by congruence. done. }
  intros Hn Hj. destruct w. simpl in *.
  unfold set_links, _unschedule, add_link, _schedule. simpl.
  f_equal; by rewrite delete_insert_eq, delete_id.
Qed.

Lemma add_then_remove_restores_witness :
  snd (remove_links [fast_link]
         (snd (add_links [fast_link] (test_planner true)))) =
    test_planner true.
Proof.
  apply (add_then_remove_restores (test_planner true) fast_link);
    reflexivity.
Defined.

(** ** Shutdown *)

(** C3: in every state a planner reaches from its construction, a planner
    that is not running has no worker pool; and once a shutdown has
    completed, which [shutdown(wait=true)] does before it returns and
    [shutdown(wait=false)] does when the polling loop next inspects the
    signal, the planner is not running and its worker pool handle is
    cleared. *)
Theorem shutdown_clears_running_and_pool
    (raises : Link -> nat -> bool) (w : state) :
  reachable raises w ->
  (_running w = false -> _thread_pool w = None) /\
  (_running (shutdown true w) = false /\
   _thread_pool (shutdown true w) = None) /\
  (_running (tick raises (shutdown false w)) = false /\
   _thread_pool (tick raises (shutdown false w)) = None).
Proof.
  intros Hreach.
  destruct (reachable_consistent raises w Hreach) as (Hpool & _ & _).
  split; [exact Hpool|].
  unfold shutdown, tick. destruct (_running w) eqn:Hrun; simpl;
    rewrite Hrun; simpl; auto.
Qed.

Lemma started_planner_reachable (raises : Link -> nat -> bool) :
  reachable raises started_planner.
Proof.
  apply (reachable_step raises _ Start).
  apply (reachable_step raises _ (AddLinks [fast_link])).
  constructor.
Qed.

Lemma shutdown_clears_running_and_pool_witness :
  _running started_planner = true /\
  _running (shutdown true started_planner) = false /\
  _thread_pool (shutdown true started_planner) = None.
Proof.
  split; [reflexivity|].
  apply (shutdown_clears_running_and_pool always_raises started_planner).
  apply started_planner_reachable.
Defined.

(** ** Failures of [transfer] *)

Section Failures.

Variable raises : Link -> nat -> bool.

Local Abbreviation ticks := (SchedulePlanner.ticks raises).

Lemma tick_running (w : state) :
  _running w = true -> shutdown_requested w = false ->
  tick raises w = run_pending raises (sleep w).
Proof. intros Hrun Hstop. unfold tick. simpl. by rewrite Hrun, Hstop. Qed.

Lemma run_pending_next_run (w : state) (l : Link) (t : nat) :
  next_run w !! l = Some t ->
  next_run (run_pending raises w) !! l =
    Some (if (t <=? clock w)%nat then clock w + interval l else t).
Proof. intros Hl. simpl. by rewrite map_lookup_imap, Hl. Qed.

Lemma on_schedule_tick (w0 : state) (l : Link) (m q r : nat) (w : state) :
  0 < refresh_interval w0 ->
  interval l = m * refresh_interval w0 ->
  r < m ->
  on_schedule w0 l m q r w ->
  if decide (r + 1 < m)
  then on_schedule w0 l m q (r + 1) (tick raises w)
  else on_schedule w0 l m (q + 1) 0 (tick raises w).
Proof.
  intros HR HI Hr
    (Hrun & Hstop & Hcatch & Hres & Hpool & Hlinks & Hjob & Hclock & Hnext
     & Hcalls).
  rewrite (tick_running w Hrun Hstop).
  assert (Hnow : clock (sleep w) =
                 clock w0 + (q * m + r + 1) * refresh_interval w0).
  { simpl. rewrite Hclock, Hres. lia. }
  assert (Hnext' : next_run (sleep w) !! l =
                   Some (clock w0 + (q + 1) * interval l)) by done.
  pose proof (run_pending_next_run (sleep w) l _ Hnext') as Hnew.
  assert (Hcalls' : transfer_calls (run_pending raises (sleep w)) l =
    if (clock w0 + (q + 1) * interval l <=? clock (sleep w))%nat
    then transfer_calls w l ++ [clock (sleep w)]
    else transfer_calls w l).
  { cbn [run_pending transfer_calls]. unfold due. by rewrite Hnext'. }
  destruct (decide (r + 1 < m)) as [Hlt|Hge].
  - (* not yet due *)
    assert (Hleb : (clock w0 + (q + 1) * interval l <=? clock (sleep w))%nat
                   = false).
    { apply Nat.leb_gt. rewrite Hnow, HI. nia. }
    rewrite Hleb in Hnew, Hcalls'.
    unfold on_schedule. rewrite Hnew, Hcalls', Hcalls.
    cbn [run_pending sleep _running shutdown_requested catch_exceptions
         refresh_interval _thread_pool links job clock].
    rewrite Hstop, Hcatch. simpl.
    repeat split; try done. rewrite Hclock, Hres. lia.
  - (* due at this tick *)
    assert (Hm : r + 1 = m) by lia.
    assert (Hleb : (clock w0 + (q + 1) * interval l <=? clock (sleep w))%nat
                   = true).
    { apply Nat.leb_le. rewrite Hnow, HI. nia. }
    rewrite Hleb in Hnew, Hcalls'.
    unfold on_schedule. rewrite Hnew, Hcalls', Hcalls.
    cbn [run_pending sleep _running shutdown_requested catch_exceptions
         refresh_interval _thread_pool links job clock].
    rewrite Hstop, Hcatch. simpl.
    repeat split; try done.
    + rewrite Hclock, Hres. nia.
    + f_equal. rewrite Hclock, Hres, HI. nia.
    + rewrite <- app_assoc. f_equal.
      replace (q + 1) with (S q) by lia.
      rewrite seq_S, map_app. simpl. f_equal. f_equal.
      rewrite Hclock, Hres, HI. nia.
Qed.

Lemma on_schedule_ticks (w0 : state) (l : Link) (m n : nat) :
  0 < refresh_interval w0 ->
  0 < m ->
  interval l = m * refresh_interval w0 ->
  _running w0 = true -> shutdown_requested w0 = false ->
  catch_exceptions w0 = true ->
  next_run w0 !! l = Some (clock w0 + interval l) ->
  exists q r, n = q * m + r /\ r < m /\ on_schedule w0 l m q r (ticks n w0).
Proof.
  intros HR Hm HI Hrun Hstop Hcatch Hnext. induction n as [|n IH].
  - exists 0, 0. split; [lia|]. split; [done|].
    unfold on_schedule. simpl. rewrite Hnext, app_nil_r.
    repeat split; try done; try lia. f_equal. lia.
  - destruct IH as (q & r & -> & Hr & Hw).
    pose proof (on_schedule_tick w0 l m q r _ HR HI Hr Hw) as Hstep.
    unfold ticks. rewrite Nat.iter_succ. fold (ticks (q * m + r) w0).
    destruct (decide (r + 1 < m)).
    + exists q, (r + 1). split; [lia|]. by split.
    + exists (q + 1), 0. split; [lia|]. by split.
Qed.

(** No event changes the failure-containment flag. *)
Lemma foldl_add_link_mode (ls : list Link) (w : state) :
  catch_exceptions (foldl add_link w ls) = catch_exceptions w.
Proof.
  revert w. induction ls as [|l ls IH]; intros w; [done|].
  simpl. by rewrite IH.
Qed.

Lemma foldl_remove_link_mode (ls : list Link) (acc : outcome * state) :
  catch_exceptions (snd (foldl remove_link acc ls)) =
    catch_exceptions (snd acc).
Proof.
  revert acc. induction ls as [|l ls IH]; intros [r w]; [done|].
  simpl. rewrite IH. by destruct (links w !! l).
Qed.

Lemma step_keeps_mode (w : state) (e : event) :
  catch_exceptions (step raises w e) = catch_exceptions w.
Proof.
  destruct e as [ls|ls| |wait|]; simpl.
  - unfold add_links. destruct (forallb _ ls); [|done].
    apply foldl_add_link_mode.
  - apply (foldl_remove_link_mode ls (Done, w)).
  - unfold start. by destruct (_running w).
  - unfold shutdown. by destruct (_running w), wait.
  - unfold tick. simpl. by destruct (_running w), (shutdown_requested w).
Qed.

(** A failure in propagate mode: the signal is raised in the tick of the
    failure and the loop exits in the next one. *)
Lemma propagate_mode_stops (w : state) (l : Link) (t : nat) :
  _running w = true -> shutdown_requested w = false ->
  catch_exceptions w = false ->
  next_run w !! l = Some t ->
  t <= clock w + refresh_interval w ->
  raises l (clock w + refresh_interval w) = true ->
  transfer_calls (tick raises w) l =
    transfer_calls w l ++ [clock w + refresh_interval w] /\
  shutdown_requested (tick raises w) = true /\
  _running (ticks 2 w) = false /\
  _thread_pool (ticks 2 w) = None /\
  clock (ticks 2 w) = clock w + refresh_interval w + refresh_interval w /\
  transfer_calls (ticks 2 w) l = transfer_calls (tick raises w) l.
Proof.
  intros Hrun Hstop Hcatch Hnext Hdue Hraises.
  assert (Hsignal : shutdown_requested (tick raises w) = true).
  { rewrite (tick_running w Hrun Hstop). simpl. rewrite Hstop, Hcatch. simpl.
    apply bool_decide_eq_true.
    by apply (map_Exists_lookup_2 _ _ l t). }
  assert (Hrun' : _running (tick raises w) = true).
  { by rewrite (tick_running w Hrun Hstop). }
  split.
  { rewrite (tick_running w Hrun Hstop). cbn [run_pending transfer_calls].
    unfold due. cbn [sleep next_run clock]. rewrite Hnext.
    by rewrite (proj2 (Nat.leb_le _ _) Hdue). }
  split; [done|].
  unfold ticks. simpl. unfold tick at 1 3 5 7. simpl.
  rewrite Hrun', Hsignal. simpl.
  rewrite (tick_running w Hrun Hstop). simpl.
  repeat split; done.
Qed.

End Failures.

(** C2: what a failing [transfer] does to a running planner that nobody
    shuts down is decided by the failure-containment flag alone, which no
    event changes once the planner is constructed. In catch mode, whatever [transfer] raises and whenever, the planner is still
    running after any number of polling resolutions, the bindings are
    untouched, and a Link whose interval is [m] resolutions has been fired
    at every whole interval elapsed and only then. In propagate mode, a
    Link that is due at the next tick and whose [transfer] raises there is
    fired at that tick, and one polling resolution later the planner is
    not running and has no worker pool, no [shutdown] having been called
    and no further [transfer] of the Link invoked. *)
Theorem transfer_failure_is_contained_by_mode
    (raises : Link -> nat -> bool) (w : state) (l : Link) (m t : nat) :
  (forall e, catch_exceptions (step raises w e) = catch_exceptions w) /\
  (_running w = true ->
   shutdown_requested w = false ->
   (catch_exceptions w = true ->
    0 < refresh_interval w ->
    0 < m ->
    interval l = m * refresh_interval w ->
    next_run w !! l = Some (clock w + interval l) ->
    forall n,
      _running (ticks raises n w) = true /\
      links (ticks raises n w) = links w /\
      job (ticks raises n w) = job w /\
      transfer_calls (ticks raises n w) l =
        transfer_calls w l ++
        map (fun i => clock w + i * interval l) (seq 1 (n / m))) /\
   (catch_exceptions w = false ->
    next_run w !! l = Some t ->
    t <= clock w + refresh_interval w ->
    raises l (clock w + refresh_interval w) = true ->
    transfer_calls (tick raises w) l =
      transfer_calls w l ++ [clock w + refresh_interval w] /\
    _running (ticks raises 2 w) = false /\
    _thread_pool (ticks raises 2 w) = None /\
    clock (ticks raises 2 w) =
      clock w + refresh_interval w + refresh_interval w /\
    transfer_calls (ticks raises 2 w) l = transfer_calls (tick raises w) l)).
Proof.
  split; [apply step_keeps_mode|].
  intros Hrun Hstop. split.
  - intros Hcatch HR Hm HI Hnext n.
    destruct (on_schedule_ticks raises w l m n HR Hm HI Hrun Hstop Hcatch Hnext)
      as (q & r & Hn & Hr & Hw).
    destruct Hw as (Hrun' & _ & _ & _ & _ & Hlinks & Hjob & _ & _ & Hcalls).
    assert (Hq : q = n / m).
    { apply (Nat.div_unique n m q r); lia. }
    rewrite <- Hq. done.
  - intros Hcatch Hnext Hdue Hraises.
    destruct (propagate_mode_stops raises w l t
                Hrun Hstop Hcatch Hnext Hdue Hraises)
      as (Hcalls & _ & Hrun' & Hpool & Hclock & Hcalls').
    done.
Qed.

Lemma transfer_failure_is_contained_by_mode_witness :
  (_running (ticks always_raises 3 started_planner) = true /\
   transfer_calls (ticks always_raises 3 started_planner) fast_link
     = [20; 40; 60]) /\
  (transfer_calls (tick always_raises started_propagating_planner) fast_link
     = [20] /\
   _running (ticks always_raises 2 started_propagating_planner) = false).
Proof.
  split.
  - destruct (transfer_failure_is_contained_by_mode
                always_raises started_planner fast_link 1 0) as [_ H].
    destruct (H eq_refl eq_refl) as [Hcatch _].
    destruct (Hcatch eq_refl) with (n := 3) as (Hrun & _ & _ & Hcalls).
    + simpl; lia.
    + lia.
    + reflexivity.
    + reflexivity.
    + split; [exact Hrun|]. rewrite Hcalls. reflexivity.
  - destruct (transfer_failure_is_contained_by_mode
                always_raises started_propagating_planner fast_link 1 20)
      as [_ H].
    destruct (H eq_refl eq_refl) as [_ Hprop].
    destruct Hprop as (Hcalls & Hrun & _).
    + reflexivity.
    + reflexivity.
    + simpl; lia.
    + reflexivity.
    + split; [exact Hcalls | exact Hrun].
Defined.

End SchedulePlannerSpec.
